(** * relay_control.py: USB relay controller for CH340-based modules

    A shallow embedding of [src/relay_control.py] and the properties of its
    port resolver and of its relay transaction engine.

    Conventions of the embedding.
    - Python [bytes] are lists of [Byte.byte]; indexing a [bytes] value gives
      one byte, or raises [IndexError] out of range.
    - Python [str] values are [String.string], holding the UTF-8 encoding
      of the text: the [in] test on two texts is the [in] test on their
      encodings.  [str.upper] follows the case-mapping tables of the Python
      runtime, which are no part of the program: it is a function the
      environment gives ([str_upper]), and nothing is assumed of it but
      where a statement says so.
    - Durations written in seconds in the source (0.5, 0.1) are kept in
      milliseconds.
    - Exceptions are values of [exn]; code that may raise returns [Res].
    - The serial transport (pyserial) and the port enumeration of the host
      are an environment [Env]; every call into them is recorded in a trace
      of [event]s, so that what the program does to the outside world can be
      stated.
    - Console output ([print]) is left out. *)

From Stdlib Require Import List String Ascii Strings.Byte Bool Arith ZArith Lia.
Import ListNotations.

Set Implicit Arguments.

(* ------------------------------------------------------------------ *)
(** * Exceptions and results *)

(** [serial.SerialException], with the text [str(e)] gives. *)
Record SerialException : Type := { reason : string }.

(** What the program can raise: [RuntimeError(msg)], with the exception it
    was raised [from] when there is one; a [SerialException] coming out of
    the transport; [IndexError] from indexing; [AttributeError] from a
    method call on [None]. *)
Inductive exn : Type :=
| RuntimeError (msg : string) (cause : option SerialException)
| SerialError (e : SerialException)
| IndexError
| AttributeError.

Inductive Res (A : Type) : Type :=
| Ok (a : A)
| Raise (e : exn).

Arguments Ok {A} a.
Arguments Raise {A} e.

Definition rbind {A B} (r : Res A) (k : A -> Res B) : Res B :=
  match r with
  | Ok a => k a
  | Raise e => Raise e
  end.

(* ------------------------------------------------------------------ *)
(** * Constants (lines 100-117) *)

Definition bytes := list byte.

Definition CMD_OFF : bytes := [xa0; x01; x00; xa1].
Definition CMD_ON : bytes := [xa0; x01; x03; xa4].
Definition CMD_TOGGLE : bytes := [xa0; x01; x04; xa5].
Definition CMD_STATUS : bytes := [xa0; x01; x05; xa6].

Definition RESPONSE_HEADER : byte * byte := (xa0, x01).
Definition STATE_ON : byte := x01.
Definition STATE_OFF : byte := x00.

Definition BAUD_RATE : Z := 9600.
Definition TIMEOUT : Z := 500.
Definition RESPONSE_DELAY : Z := 100.

Definition CH340_KEYWORDS : list string :=
  ["CH340"%string; "CH341"%string; "USB-SERIAL"%string].
Definition USB_KEYWORDS : list string := ["USB"%string].

(* ------------------------------------------------------------------ *)
(** * Decoding a response (lines 245-262) *)

(** [response[i]] on a [bytes] value. *)
Definition getitem (r : bytes) (i : nat) : Res byte :=
  match nth_error r i with
  | Some b => Ok b
  | None => Raise IndexError
  end.

(** Truth value of an [Optional[bytes]]: [None] and [b''] are falsy. *)
Definition truthy_bytes (response : option bytes) : bool :=
  match response with
  | None => false
  | Some [] => false
  | Some (_ :: _) => true
  end.

(** [len(response)], only evaluated on a truthy response. *)
Definition len (response : option bytes) : nat :=
  match response with
  | None => 0
  | Some r => List.length r
  end.

Definition the_bytes (response : option bytes) : bytes :=
  match response with
  | None => []
  | Some r => r
  end.

Definition _parse_status (response : option bytes) : Res (option bool) :=
  if negb (truthy_bytes response) || (len response <? 4) then Ok None
  else
    let r := the_bytes response in
    rbind (getitem r 0) (fun b0 =>
    if Byte.eqb b0 (fst RESPONSE_HEADER) then
      rbind (getitem r 1) (fun b1 =>
      if Byte.eqb b1 (snd RESPONSE_HEADER) then
        rbind (getitem r 2) (fun b2 => Ok (Some (Byte.eqb b2 STATE_ON)))
      else Ok None)
    else Ok None).

(** The verdicts: [Some true] is ON, [Some false] is OFF, [None] is UNKNOWN. *)
Definition ON : option bool := Some true.
Definition OFF : option bool := Some false.
Definition UNKNOWN : option bool := None.

(** The response-frame contract evaluated on a buffer: length at least 4 and
    the two header bytes in front; [state_byte] is the third byte. *)
Definition valid_frame (r : bytes) : Prop :=
  4 <= List.length r /\ nth_error r 0 = Some xa0 /\ nth_error r 1 = Some x01.

Definition state_byte (r : bytes) : option byte := nth_error r 2.

(* ------------------------------------------------------------------ *)
(** * Strings: letter case of ASCII text and the [in] test *)

(** Uppercase and lowercase of ASCII letters; every other character is
    left alone.  On ASCII text this is what [str.upper] and [str.lower]
    do. *)
Definition upper_ascii (c : ascii) : ascii :=
  let n := nat_of_ascii c in
  if (97 <=? n) && (n <=? 122) then ascii_of_nat (n - 32) else c.

Fixpoint ascii_upper (s : string) : string :=
  match s with
  | EmptyString => EmptyString
  | String c s' => String (upper_ascii c) (ascii_upper s')
  end.

Definition lower_ascii (c : ascii) : ascii :=
  let n := nat_of_ascii c in
  if (65 <=? n) && (n <=? 90) then ascii_of_nat (n + 32) else c.

Fixpoint ascii_lower (s : string) : string :=
  match s with
  | EmptyString => EmptyString
  | String c s' => String (lower_ascii c) (ascii_lower s')
  end.

(** Text made of ASCII characters only. *)
Fixpoint is_ascii (s : string) : bool :=
  match s with
  | EmptyString => true
  | String c s' => (nat_of_ascii c <? 128) && is_ascii s'
  end.

(** [kw in s]: [kw] occurs in [s] as a contiguous run. *)
Fixpoint contains (kw s : string) : bool :=
  String.prefix kw s ||
  match s with
  | EmptyString => false
  | String _ s' => contains kw s'
  end.

(** [any(kw in desc for kw in kws)] *)
Definition any_in (kws : list string) (desc : string) : bool :=
  existsb (fun kw => contains kw desc) kws.

(* ------------------------------------------------------------------ *)
(** * Port classification and ranking (lines 157-178) *)

(** What [comports()] yields for one port: the two attributes read here. *)
Record ListPortInfo : Type := {
  device : string;
  description : option string
}.

(** A candidate is the tuple [(port.device, port.description, tier)]. *)
Definition candidate : Type := (string * option string * Z)%type.

Definition tier (c : candidate) : Z := snd c.
Definition cand_device (c : candidate) : string := fst (fst c).

(** [port.description or ""] *)
Definition or_empty (d : option string) : string :=
  match d with
  | None => EmptyString
  | Some EmptyString => EmptyString
  | Some s => s
  end.

(** One turn of the loop over the ports: [candidates] after the body.
    [up] is [str.upper]. *)
Definition scan_port (up : string -> string)
  (candidates : list candidate) (port : ListPortInfo) : list candidate :=
  let desc := up (or_empty (description port)) in
  if any_in CH340_KEYWORDS desc then
    candidates ++ [(device port, description port, 1%Z)]
  else if any_in USB_KEYWORDS desc then
    candidates ++ [(device port, description port, 2%Z)]
  else candidates.

Definition scan_ports (up : string -> string) (ports : list ListPortInfo)
  : list candidate :=
  fold_left (scan_port up) ports [].

(** What one port adds to the candidate list. *)
Definition classify (up : string -> string) (port : ListPortInfo)
  : list candidate :=
  scan_port up [] port.

(** [list.sort(key=...)]: Python's sort is stable.  Insertion from the right
    puts an element in front of the first one whose key is not smaller, so
    elements with equal keys keep their order. *)
Section Sort.
Variable A : Type.
Variable key : A -> Z.

Fixpoint insert_by (x : A) (l : list A) : list A :=
  match l with
  | [] => [x]
  | y :: l' =>
      if (key x <=? key y)%Z then x :: y :: l' else y :: insert_by x l'
  end.

Fixpoint sort_by (l : list A) : list A :=
  match l with
  | [] => []
  | x :: l' => insert_by x (sort_by l')
  end.

(** Keys in ascending order. *)
Inductive ascending : list A -> Prop :=
| asc_nil : ascending []
| asc_one x : ascending [x]
| asc_cons x y l :
    (key x <= key y)%Z -> ascending (y :: l) -> ascending (x :: y :: l).

(** The elements with a given key, in list order. *)
Definition with_key (k : Z) (l : list A) : list A :=
  filter (fun x => (key x =? k)%Z) l.
End Sort.

(** [candidates[0]] after the sort, for a non-empty list. *)
Definition select (candidates : list candidate) : option candidate :=
  hd_error (sort_by tier candidates).

(** A keyword of [kws] occurs in the uppercased description of the port. *)
Definition mentions (up : string -> string) (kws : list string)
  (p : ListPortInfo) : Prop :=
  exists kw a b,
    In kw kws /\
    up (or_empty (description p)) = (a ++ kw ++ b)%string.

(** The port [p] with another description. *)
Definition described (p : ListPortInfo) (d : string) : ListPortInfo :=
  {| device := device p; description := Some d |}.

(* ------------------------------------------------------------------ *)
(** * The outside world: serial transport and port enumeration *)

(** Calls that leave the program, in the order they are made. *)
Inductive event : Type :=
| EvComports
| EvOpen (port : string) (baudrate : Z) (timeout : Z)
| EvClose (port : string)
| EvResetInput
| EvResetOutput
| EvWrite (data : bytes)
| EvFlush
| EvSleep (ms : Z)
| EvInWaiting
| EvRead (size : nat).

(** What the program cannot decide.  The moment of a call is the number of
    calls made before it.
    - [comports]: the ports the host lists;
    - [open_error t p]: the error, if any, of opening port [p] at [t];
    - [io_error t]: the error, if any, of the call made on the open
      connection at [t];
    - [arrival t]: the bytes the device puts into the input buffer of the
      open connection in the course of the call made at [t];
    - [str_upper]: [str.upper], the case mapping of the Python runtime,
      whose tables are no part of the program. *)
Record Env : Type := {
  comports : list ListPortInfo;
  open_error : nat -> string -> option SerialException;
  io_error : nat -> option SerialException;
  arrival : nat -> bytes;
  str_upper : string -> string
}.

(** [trace]: the calls made so far; [held]: the ports this process holds
    open. *)
Record World : Type := {
  trace : list event;
  held : list string
}.

(** A [serial.Serial] object. *)
Record Serial : Type := {
  port : string;
  is_open : bool;
  in_buffer : bytes
}.

(** The attributes of a [RelayController]. *)
Record RelayController : Type := {
  verbose : bool;
  port_name : string;
  serial_port : option Serial
}.

(** State and exceptions: a computation on a state [S] ends with a value or
    a raised exception, and with the state it reached. *)
Definition M (S A : Type) : Type := S -> Res A * S.

Definition ret {S A} (a : A) : M S A := fun s => (Ok a, s).

Definition raise {S A} (e : exn) : M S A := fun s => (Raise e, s).

Definition bind {S A B} (m : M S A) (k : A -> M S B) : M S B :=
  fun s =>
    match m s with
    | (Ok a, s') => k a s'
    | (Raise e, s') => (Raise e, s')
    end.

Notation "x <- m ;; k" := (bind m (fun x => k))
  (at level 61, m at next level, right associativity).
Notation "m ;;; k" := (bind m (fun _ => k))
  (at level 61, right associativity).

(** [try: m  except serial.SerialException as e: h e] *)
Definition except_serial {S A} (m : M S A) (h : SerialException -> M S A)
  : M S A :=
  fun s =>
    match m s with
    | (Raise (SerialError e), s') => h e s'
    | r => r
    end.

(** A pure computation that may raise, run inside [M]. *)
Definition lift_res {S A} (r : Res A) : M S A := fun s => (r, s).

Definition now (w : World) : nat := List.length (trace w).

Definition log (ev : event) (w : World) : World :=
  {| trace := trace w ++ [ev]; held := held w |}.

Fixpoint release (p : string) (l : list string) : list string :=
  match l with
  | [] => []
  | q :: l' => if String.eqb p q then l' else q :: release p l'
  end.

Definition PORT_NOT_OPEN : SerialException :=
  {| reason := "Attempting to use a port that is not open" |}.

Definition truthy_str (s : string) : bool :=
  match s with
  | EmptyString => false
  | String _ _ => true
  end.

Definition NO_DEVICE_MSG : string :=
  "No USB relay device found.
  1. Ensure device is connected
  2. Install CH340/CH341 drivers: https://www.wch.cn/downloads/CH341SER_ZIP.html
  3. Check device is not in use".

Definition DRIVER_CHECK_MSG (port_name : string) (e : SerialException)
  : string :=
  ("Driver check failed for " ++ port_name ++ ": " ++ reason e)%string.

Inductive Action : Type := ActOn | ActOff | ActToggle | ActStatus.

(* ------------------------------------------------------------------ *)
(** * The program *)

Section Program.
Variable E : Env.

(** ** pyserial *)

(** [serial.tools.list_ports.comports()] *)
Definition list_comports : M World (list ListPortInfo) :=
  fun w => (Ok (comports E), log EvComports w).

(** [serial.Serial(port, baudrate, timeout=...)]: the constructor opens
    the port, or raises. *)
Definition Serial_new (p : string) (baudrate timeout : Z) : M World Serial :=
  fun w =>
    let w' := log (EvOpen p baudrate timeout) w in
    match open_error E (now w) p with
    | Some e => (Raise (SerialError e), w')
    | None =>
        (Ok {| port := p; is_open := true; in_buffer := [] |},
         {| trace := trace w'; held := p :: held w' |})
    end.

(** Bytes of the device reaching the input buffer of an open port. *)
Definition deliver (w : World) (s : Serial) : Serial :=
  if is_open s then
    {| port := port s; is_open := true;
       in_buffer := in_buffer s ++ arrival E (now w) |}
  else s.

(** A call on a [Serial] object: refused on a closed port, else it may
    fail in the transport, else it acts on the object. *)
Definition port_call {A} (ev : event) (act : Serial -> A * Serial)
  : M (Serial * World) A :=
  fun '(s, w) =>
    if negb (is_open s) then
      (Raise (SerialError PORT_NOT_OPEN), (s, log ev w))
    else
      let s1 := deliver w s in
      match io_error E (now w) with
      | Some e => (Raise (SerialError e), (s1, log ev w))
      | None => let (a, s2) := act s1 in (Ok a, (s2, log ev w))
      end.

Definition set_buffer (s : Serial) (b : bytes) : Serial :=
  {| port := port s; is_open := is_open s; in_buffer := b |}.

Definition reset_input_buffer : M (Serial * World) unit :=
  port_call EvResetInput (fun s => (tt, set_buffer s [])).

Definition reset_output_buffer : M (Serial * World) unit :=
  port_call EvResetOutput (fun s => (tt, s)).

Definition write (data : bytes) : M (Serial * World) nat :=
  port_call (EvWrite data) (fun s => (List.length data, s)).

Definition flush : M (Serial * World) unit :=
  port_call EvFlush (fun s => (tt, s)).

Definition in_waiting : M (Serial * World) nat :=
  port_call EvInWaiting (fun s => (List.length (in_buffer s), s)).

(** [read(size)] with at least [size] bytes buffered returns at once. *)
Definition read (size : nat) : M (Serial * World) bytes :=
  port_call (EvRead size)
    (fun s => (firstn size (in_buffer s),
               set_buffer s (skipn size (in_buffer s)))).

(** [close()] does nothing on a closed port. *)
Definition close : M (Serial * World) unit :=
  fun '(s, w) =>
    if is_open s then
      (Ok tt,
       ({| port := port s; is_open := false; in_buffer := [] |},
        {| trace := trace w ++ [EvClose (port s)];
           held := release (port s) (held w) |}))
    else (Ok tt, (s, w)).

(** ** Access to [self] *)

Definition Self : Type := (RelayController * World)%type.

Definition set_serial_port (c : RelayController) (s : option Serial)
  : RelayController :=
  {| verbose := verbose c; port_name := port_name c; serial_port := s |}.

(** A call on [self.serial_port]; on [None] it is an [AttributeError]. *)
Definition on_port {A} (m : M (Serial * World) A) : M Self A :=
  fun '(c, w) =>
    match serial_port c with
    | None => (Raise AttributeError, (c, w))
    | Some s =>
        let '(r, (s', w')) := m (s, w) in
        (r, (set_serial_port c (Some s'), w'))
    end.

(** [time.sleep(seconds)]: time passes, the device may answer. *)
Definition sleep (ms : Z) : M Self unit :=
  fun '(c, w) =>
    (Ok tt,
     (set_serial_port c (option_map (deliver w) (serial_port c)),
      log (EvSleep ms) w)).

(** ** [RelayController._auto_detect_port] (lines 151-191)

    [self] is read for [self.verbose] only, which decides what is printed;
    the method is a computation on the world. *)

(** [with serial.Serial(port_name, BAUD_RATE, timeout=0.1): pass] *)
Definition probe (port_name : string) : M World unit :=
  fun w =>
    match Serial_new port_name BAUD_RATE 100 w with
    | (Raise e, w1) => (Raise e, w1)
    | (Ok s, w1) => let '(r, (_, w2)) := close (s, w1) in (r, w2)
    end.

Definition _auto_detect_port : M World string :=
  ports <- list_comports ;;
  let candidates := scan_ports (str_upper E) ports in
  match candidates with
  | [] => raise (RuntimeError NO_DEVICE_MSG None)
  | _ :: _ =>
      match select candidates with
      | None => raise IndexError
      | Some (port_name, desc, _) =>
          except_serial (probe port_name)
            (fun e =>
               raise (RuntimeError (DRIVER_CHECK_MSG port_name e) (Some e)))
          ;;; ret port_name
      end
  end.

(** ** [RelayController.__init__] (lines 139-149) *)

(** [port or self._auto_detect_port()] *)
Definition __init__ (port : option string) (verbose : bool)
  : M World RelayController :=
  port_name <-
    match port with
    | Some p => if truthy_str p then ret p else _auto_detect_port
    | None => _auto_detect_port
    end ;;
  ret {| verbose := verbose; port_name := port_name; serial_port := None |}.

(** ** [__enter__] and [__exit__] (lines 193-211) *)

Definition __enter__ : M Self unit :=
  fun '(c, w) =>
    match Serial_new (port_name c) BAUD_RATE TIMEOUT w with
    | (Raise e, w1) => (Raise e, (c, w1))
    | (Ok s, w1) =>
        (on_port reset_input_buffer ;;;
         on_port reset_output_buffer ;;;
         ret tt) (set_serial_port c (Some s), w1)
    end.

Definition __exit__ : M Self unit :=
  fun '(c, w) =>
    match serial_port c with
    | None => (Ok tt, (c, w))
    | Some s =>
        if is_open s then on_port close (c, w) else (Ok tt, (c, w))
    end.

(** ** The transaction (lines 213-303) *)

Definition port_not_opened (c : RelayController) : bool :=
  match serial_port c with
  | None => true
  | Some s => negb (is_open s)
  end.

Definition _send_command (command : bytes) : M Self (option bytes) :=
  fun '(c, w) =>
    if port_not_opened c then
      (Raise (RuntimeError "Serial port not opened" None), (c, w))
    else
      (on_port (write command) ;;;
       on_port flush ;;;
       sleep RESPONSE_DELAY ;;;
       n <- on_port in_waiting ;;
       if 0 <? n then
         size <- on_port in_waiting ;;
         response <- on_port (read size) ;;
         ret (Some response)
       else ret None) (c, w).

Definition _execute_action (action : string) (command : bytes)
  : M Self (option bool) :=
  response <- _send_command command ;;
  status <- lift_res (_parse_status response) ;;
  ret status.

Definition turn_on : M Self (option bool) :=
  _execute_action "Turning relay ON" CMD_ON.

Definition turn_off : M Self (option bool) :=
  _execute_action "Turning relay OFF" CMD_OFF.

Definition toggle : M Self (option bool) :=
  _execute_action "Toggling relay" CMD_TOGGLE.

Definition query_status : M Self (option bool) :=
  _execute_action "Querying relay status" CMD_STATUS.

(** ** [main] (lines 333-357) *)

(** The [actions] table of [main]. *)
Definition actions (a : Action) : M Self (option bool) :=
  match a with
  | ActOn => turn_on
  | ActOff => turn_off
  | ActToggle => toggle
  | ActStatus => query_status
  end.

(** [with controller: body]: [__exit__] runs when the body ends and when
    it raises; it does not run when [__enter__] raises. *)
Definition with_controller {A} (body : M Self A) : M Self A :=
  fun st =>
    match __enter__ st with
    | (Raise e, st1) => (Raise e, st1)
    | (Ok _, st1) =>
        let (r, st2) := body st1 in
        match __exit__ st2 with
        | (Raise e, st3) => (Raise e, st3)
        | (Ok _, st3) => (r, st3)
        end
    end.

(** The body of the [try] of [main]. *)
Definition run (action : Action) (port : option string) (verbose : bool)
  (w : World) : Res (option bool) * (option RelayController * World) :=
  match __init__ port verbose w with
  | (Raise e, w1) => (Raise e, (None, w1))
  | (Ok controller, w1) =>
      let '(r, (c, w2)) := with_controller (actions action) (controller, w1) in
      (r, (Some c, w2))
  end.

(** The exit code: every handler of an [Exception] returns 1. *)
Definition main (action : Action) (port : option string) (verbose : bool)
  (w : World) : Z * World :=
  let '(r, (_, w')) := run action port verbose w in
  (match r with Ok _ => 0%Z | Raise _ => 1%Z end, w').

End Program.

(* ------------------------------------------------------------------ *)
(** * Observations *)

(** The byte sequences handed to [write], in order. *)
Definition sent (tr : list event) : list bytes :=
  flat_map (fun ev => match ev with EvWrite d => [d] | _ => [] end) tr.

(** The ports the program tried to open, in order. *)
Definition opens (tr : list event) : list string :=
  flat_map (fun ev => match ev with EvOpen p _ _ => [p] | _ => [] end) tr.

(** What the input buffer of the open connection [s] holds once the [n]
    calls made from moment [t] on are over, when none of them reads or
    resets: what it held, then what arrived in each call. *)
Definition buffered (E : Env) (s : Serial) (t n : nat) : bytes :=
  in_buffer s ++ List.concat (map (arrival E) (seq t n)).

(** A connection that is there and open. *)
Definition connected (c : RelayController) (s : Serial) : Prop :=
  serial_port c = Some s /\ is_open s = true.

(** No transport error in the [n] calls from moment [t] on. *)
Definition no_io_error (E : Env) (t n : nat) : Prop :=
  forall i, t <= i < t + n -> io_error E i = None.

(** The state of the connection after a [with] block. *)
Definition closed (c : RelayController) : Prop :=
  exists s, serial_port c = Some s /\ is_open s = false.

(** Two states of a transaction, the second reached from the first.
    [keeps]: the same ports are held, and a connection that was there and
    open is still there, open, on the same port.
    [silent]: the calls made in between are no [write] and open no port. *)
Definition keeps (st st' : Self) : Prop :=
  held (snd st') = held (snd st) /\
  forall s, connected (fst st) s ->
    exists s', connected (fst st') s' /\ port s' = port s.

Definition silent (st st' : Self) : Prop :=
  exists evs,
    trace (snd st') = trace (snd st) ++ evs /\
    sent evs = [] /\ opens evs = [].

(** Every run of [m] relates the state it starts in to the one it ends
    in. *)
Definition respects {A} (R : Self -> Self -> Prop) (m : M Self A) : Prop :=
  forall st, R st (snd (m st)).

(** A method of [Serial] that leaves the port and its open state alone. *)
Definition gentle {A} (act : Serial -> A * Serial) : Prop :=
  forall s, port (snd (act s)) = port s /\
            is_open (snd (act s)) = is_open s.

(** What follows the [write] in [_send_command]. *)
Definition after_write (E : Env) : M Self (option bytes) :=
  on_port (flush E) ;;;
  sleep E RESPONSE_DELAY ;;;
  n <- on_port (in_waiting E) ;;
  if 0 <? n then
    size <- on_port (in_waiting E) ;;
    response <- on_port (read E size) ;;
    ret (Some response)
  else ret None.

(** The open connection [s] after the [k] calls made from moment [t] on,
    none of which reads or resets. *)
Definition arrived (E : Env) (s : Serial) (t k : nat) : Serial :=
  set_buffer s (buffered E s t k).

(** The state in which [_send_command] has just asked for the number of
    buffered bytes, after the write, the flush and the settle wait. *)
Definition at_check (E : Env) (command : bytes) (c : RelayController)
  (s : Serial) (w : World) : Self :=
  (set_serial_port c (Some (arrived E s (now w) 4)),
   log EvInWaiting
     (log (EvSleep RESPONSE_DELAY) (log EvFlush (log (EvWrite command) w)))).

(** The state in which the buffer has been read. *)
Definition at_read (E : Env) (command : bytes) (c : RelayController)
  (s : Serial) (w : World) : Self :=
  (set_serial_port c (Some (set_buffer s (arrival E (now w + 5)))),
   log (EvRead (List.length (buffered E s (now w) 5)))
     (log EvInWaiting (snd (at_check E command c s w)))).

(** A controller for examples, its connection open on COM3. *)
Definition open_controller : RelayController :=
  {| verbose := false; port_name := "COM3";
     serial_port :=
       Some {| port := "COM3"; is_open := true; in_buffer := [] |} |}.

Definition new_controller : RelayController :=
  {| verbose := false; port_name := "COM3"; serial_port := None |}.

(** An environment for examples: the ports listed, none of which fails to
    open, a transport without errors, and a device that answers [reply]
    in the course of the call made at moment [at_]. *)
Definition quiet_env (ports : list ListPortInfo) (at_ : nat) (reply : bytes)
  : Env :=
  {| comports := ports;
     open_error := fun _ _ => None;
     io_error := fun _ => None;
     arrival := fun t => if Nat.eqb t at_ then reply else [];
     str_upper := ascii_upper |}.

Definition start : World := {| trace := []; held := [] |}.

(** Ports for examples: a relay module, a generic USB adapter, and two
    ports that are neither. *)
Definition relay_port : ListPortInfo :=
  {| device := "COM3"; description := Some "USB-SERIAL CH340 (COM3)"%string |}.
Definition generic_port : ListPortInfo :=
  {| device := "COM4"; description := Some "Generic usb Serial"%string |}.
Definition modem_port : ListPortInfo :=
  {| device := "COM1"; description := Some "Bluetooth link"%string |}.
Definition bare_port : ListPortInfo :=
  {| device := "COM2"; description := None |}.

Definition ACCESS_DENIED : SerialException :=
  {| reason := "could not open port 'COM3': PermissionError(13, 'Access is denied.')" |}.

(** As [quiet_env] with no reply, but no port can be opened. *)
Definition busy_env (ports : list ListPortInfo) : Env :=
  {| comports := ports;
     open_error := fun _ _ => Some ACCESS_DENIED;
     io_error := fun _ => None;
     arrival := fun _ => [];
     str_upper := ascii_upper |}.

(** An outcome that is a value or an exception of the transport. *)
Definition transport_outcome {A} (r : Res A) : Prop :=
  match r with
  | Ok _ => True
  | Raise (SerialError _) => True
  | Raise _ => False
  end.

(** On an open connection [m] ends with a value or a transport exception,
    and with the connection still open. *)
Definition sound {A} (m : M Self A) : Prop :=
  forall c w s,
    connected c s ->
    transport_outcome (fst (m (c, w))) /\
    exists s', connected (fst (snd (m (c, w)))) s'.

(** As [quiet_env] with no port listed, but the call made at moment [at_]
    on the connection fails; the device answers [reply] in every call. *)
Definition failing_env (at_ : nat) (e : SerialException) (reply : bytes)
  : Env :=
  {| comports := [];
     open_error := fun _ _ => None;
     io_error := fun t => if Nat.eqb t at_ then Some e else None;
     arrival := fun _ => reply;
     str_upper := ascii_upper |}.

Definition WRITE_TIMEOUT : SerialException := {| reason := "Write timeout" |}.

Definition DEVICE_GONE : SerialException :=
  {| reason := "device disconnected" |}.

(** A case mapping that is [ascii_upper] but on the text "u", LATIN SMALL
    LETTER LONG S, "b relay", which it maps as [str.upper] does. *)
Definition long_s_upper (s : string) : string :=
  if String.eqb s "uſb relay" then "USB RELAY"%string else ascii_upper s.

(** A device that sends one byte of a status frame in each call. *)
Definition chatty_env : Env :=
  {| comports := [];
     open_error := fun _ _ => None;
     io_error := fun _ => None;
     arrival := fun t => [nth (t mod 4) [xa0; x01; x01; xa2] x00];
     str_upper := ascii_upper |}.

(* ------------------------------------------------------------------ *)
(** * Decoding: what [_parse_status] returns *)

Section Decode.

Lemma byte_eqb_refl (b : byte) : Byte.eqb b b = true.
Proof. now apply Byte.byte_dec_lb. Qed.

Lemma byte_eqb_true_iff (a b : byte) : Byte.eqb a b = true <-> a = b.
Proof.
  split; [apply Byte.byte_dec_bl | apply Byte.byte_dec_lb].
Qed.

Lemma byte_eqb_false_iff (a b : byte) : Byte.eqb a b = false <-> a <> b.
Proof.
  split; [apply Byte.eqb_false |].
  intros Hne. destruct (Byte.eqb a b) eqn:Heq; [| reflexivity].
  apply byte_eqb_true_iff in Heq. contradiction.
Qed.

(** Whether two bytes are the header or not, with the tests rewritten. *)
Ltac header_cases b0 b1 :=
  let N := fresh "Hne" in
  destruct (Byte.byte_eq_dec b0 xa0) as [-> | N];
  [ rewrite (byte_eqb_refl xa0)
  | rewrite (proj2 (byte_eqb_false_iff b0 xa0) N) ];
  (let N' := fresh "Hne" in
   destruct (Byte.byte_eq_dec b1 x01) as [-> | N'];
   [ rewrite (byte_eqb_refl x01)
   | rewrite (proj2 (byte_eqb_false_iff b1 x01) N') ]);
  cbn.

(** On a buffer of at least four bytes the decoder looks at the first
    three and at nothing else. *)
Lemma parse_status_four (b0 b1 b2 b3 : byte) (rest : bytes) :
  _parse_status (Some (b0 :: b1 :: b2 :: b3 :: rest)) =
  Ok (if Byte.eqb b0 xa0 && Byte.eqb b1 x01
      then Some (Byte.eqb b2 x01) else None).
Proof.
  unfold _parse_status. cbn.
  destruct (Byte.eqb b0 xa0); cbn; [| reflexivity].
  destruct (Byte.eqb b1 x01); reflexivity.
Qed.

Lemma parse_status_short (r : bytes) :
  List.length r < 4 -> _parse_status (Some r) = Ok None.
Proof.
  intros Hlen.
  destruct r as [| b0 [| b1 [| b2 [| b3 rest]]]];
    try reflexivity.
  cbn in Hlen. lia.
Qed.

Lemma parse_status_absent : _parse_status None = Ok None.
Proof. reflexivity. Qed.

(** Indexing never goes out of range: no input makes the decoder raise. *)
Lemma parse_status_total (response : option bytes) :
  exists verdict, _parse_status response = Ok verdict.
Proof.
  destruct response as [r |]; [| eexists; reflexivity].
  destruct r as [| b0 [| b1 [| b2 [| b3 rest]]]];
    try (eexists; reflexivity).
  rewrite parse_status_four. eexists; reflexivity.
Qed.

Lemma valid_frame_four (b0 b1 b2 b3 : byte) (rest : bytes) :
  valid_frame (b0 :: b1 :: b2 :: b3 :: rest) <-> b0 = xa0 /\ b1 = x01.
Proof.
  unfold valid_frame; cbn. split.
  - intros (_ & H0 & H1). now inversion H0; inversion H1.
  - intros [-> ->]. repeat split; lia.
Qed.

Lemma valid_frame_long (r : bytes) : valid_frame r -> 4 <= List.length r.
Proof. now intros [H _]. Qed.

(** ON exactly on a valid frame whose state byte is 0x01. *)
Lemma parse_status_ON_iff (r : bytes) :
  _parse_status (Some r) = Ok ON <->
  valid_frame r /\ state_byte r = Some STATE_ON.
Proof.
  destruct r as [| b0 [| b1 [| b2 [| b3 rest]]]];
    try (split; [discriminate | intros [Hv _]; apply valid_frame_long in Hv;
                                cbn in Hv; lia]).
  rewrite parse_status_four, valid_frame_four.
  unfold state_byte, ON, STATE_ON; cbn.
  header_cases b0 b1.
  - split.
    + intros H; inversion H as [H2]. apply byte_eqb_true_iff in H2.
      subst; auto.
    + intros [_ H]; inversion H; subst. reflexivity.
  - split; [discriminate | intros [[_ ?] _]; contradiction].
  - split; [discriminate | intros [[? _] _]; contradiction].
  - split; [discriminate | intros [[? _] _]; contradiction].
Qed.

(** OFF on a valid frame whose state byte is anything but 0x01: the state
    byte is compared with [STATE_ON] only. *)
Lemma parse_status_OFF_iff (r : bytes) :
  _parse_status (Some r) = Ok OFF <->
  valid_frame r /\ exists b, state_byte r = Some b /\ b <> STATE_ON.
Proof.
  destruct r as [| b0 [| b1 [| b2 [| b3 rest]]]];
    try (split; [discriminate | intros [Hv _]; apply valid_frame_long in Hv;
                                cbn in Hv; lia]).
  rewrite parse_status_four, valid_frame_four.
  unfold state_byte, OFF, STATE_ON; cbn.
  header_cases b0 b1.
  - split.
    + intros H; inversion H as [H2]. apply byte_eqb_false_iff in H2.
      subst; eauto.
    + intros [_ (b & Hb & Hne)]; inversion Hb; subst.
      apply byte_eqb_false_iff in Hne. now rewrite Hne.
  - split; [discriminate | intros [[_ ?] _]; contradiction].
  - split; [discriminate | intros [[? _] _]; contradiction].
  - split; [discriminate | intros [[? _] _]; contradiction].
Qed.

(** UNKNOWN exactly on what is not a valid frame. *)
Lemma parse_status_UNKNOWN_iff (r : bytes) :
  _parse_status (Some r) = Ok UNKNOWN <-> ~ valid_frame r.
Proof.
  destruct r as [| b0 [| b1 [| b2 [| b3 rest]]]];
    try (split; [intros _ Hv; apply valid_frame_long in Hv; cbn in Hv; lia
                | reflexivity]).
  rewrite parse_status_four, valid_frame_four. unfold UNKNOWN.
  header_cases b0 b1.
  - split; [discriminate | intros H; exfalso; auto].
  - split; [intros _ [_ ?]; contradiction | reflexivity].
  - split; [intros _ [? _]; contradiction | reflexivity].
  - split; [intros _ [? _]; contradiction | reflexivity].
Qed.

(** The inputs listed with the decoder. *)
Example decode_on (x : byte) :
  _parse_status (Some [xa0; x01; x01; x]) = Ok ON.
Proof. reflexivity. Qed.

Example decode_off (x : byte) :
  _parse_status (Some [xa0; x01; x00; x]) = Ok OFF.
Proof. reflexivity. Qed.

Example decode_unknown :
  _parse_status (Some []) = Ok UNKNOWN /\
  _parse_status (Some [xa0]) = Ok UNKNOWN /\
  _parse_status (Some [xa0; x01]) = Ok UNKNOWN /\
  _parse_status (Some [x00; x01; x01; x00]) = Ok UNKNOWN.
Proof. repeat split. Qed.

(** C1: the decoder is to give UNKNOWN for a frame with the right header
    and a state byte other than 0x00 and 0x01.  On [A0 01 02 x] it gives
    OFF for every trailing byte [x]: with the header in place the result
    is the comparison of the state byte with [STATE_ON], and [STATE_OFF]
    is never consulted. *)
Theorem parse_status_state_02_is_OFF (x : byte) :
  _parse_status (Some [xa0; x01; x02; x]) = Ok OFF /\
  _parse_status (Some [xa0; x01; x02; x]) <> Ok UNKNOWN /\
  x02 <> STATE_OFF /\ x02 <> STATE_ON.
Proof.
  repeat split; discriminate.
Qed.

End Decode.

(* ------------------------------------------------------------------ *)
(** * Strings: facts about letter case and [contains] *)

Section Strings.
Local Open Scope string_scope.

Lemma prefix_iff (kw s : string) :
  String.prefix kw s = true <-> exists b, s = kw ++ b.
Proof.
  revert s. induction kw as [| c kw IH]; intros s.
  - split; [intros _; now exists s | intros _; now destruct s].
  - destruct s as [| d s]; cbn.
    + split; [discriminate | intros [b Hb]; discriminate].
    + destruct (Ascii.ascii_dec c d) as [-> | Hcd].
      * rewrite IH. split; intros [b Hb]; exists b.
        -- now rewrite Hb.
        -- now inversion Hb.
      * split; [discriminate |].
        intros [b Hb]. inversion Hb. congruence.
Qed.

(** [kw in s] holds exactly when [s] is some text, then [kw], then some
    text. *)
Lemma contains_iff (kw s : string) :
  contains kw s = true <-> exists a b, s = a ++ kw ++ b.
Proof.
  induction s as [| c s IH]; cbn [contains].
  - rewrite orb_false_r, prefix_iff. split.
    + intros [b Hb]. now exists "", b.
    + intros (a & b & Hab). destruct a as [| x a]; [now exists b |].
      discriminate.
  - rewrite orb_true_iff, prefix_iff, IH. split.
    + intros [[b Hb] | (a & b & Hab)].
      * now exists "", b.
      * exists (String c a), b. cbn. now rewrite Hab.
    + intros (a & b & Hab). destruct a as [| x a].
      * left. now exists b.
      * right. exists a, b. now inversion Hab.
Qed.

Lemma append_assoc (a b c : string) : (a ++ b) ++ c = a ++ b ++ c.
Proof. induction a as [| x a IH]; cbn; [reflexivity | now rewrite IH]. Qed.

(** A text that holds [big] holds every piece of [big]. *)
Lemma contains_piece (small big s : string) :
  contains small big = true -> contains big s = true ->
  contains small s = true.
Proof.
  rewrite !contains_iff.
  intros (a & b & ->) (a' & b' & ->).
  exists (a' ++ a), (b ++ b').
  now rewrite !append_assoc.
Qed.

Lemma upper_ascii_idempotent (c : ascii) :
  upper_ascii (upper_ascii c) = upper_ascii c.
Proof.
  destruct c as [[] [] [] [] [] [] [] []]; reflexivity.
Qed.

Lemma upper_lower_ascii (c : ascii) :
  upper_ascii (lower_ascii c) = upper_ascii c.
Proof.
  destruct c as [[] [] [] [] [] [] [] []]; reflexivity.
Qed.

Lemma upper_idempotent (s : string) :
  ascii_upper (ascii_upper s) = ascii_upper s.
Proof.
  induction s as [| c s IH]; cbn; [reflexivity |].
  now rewrite upper_ascii_idempotent, IH.
Qed.

Lemma upper_lower (s : string) :
  ascii_upper (ascii_lower s) = ascii_upper s.
Proof.
  induction s as [| c s IH]; cbn; [reflexivity |].
  now rewrite upper_lower_ascii, IH.
Qed.

Lemma is_ascii_upper (s : string) :
  is_ascii s = true -> is_ascii (ascii_upper s) = true.
Proof.
  induction s as [| c s IH]; cbn; [reflexivity |].
  rewrite !andb_true_iff. intros [Hc Hs]. split; [| now apply IH].
  clear - Hc. revert Hc.
  destruct c as [[] [] [] [] [] [] [] []]; vm_compute; congruence.
Qed.

Lemma is_ascii_lower (s : string) :
  is_ascii s = true -> is_ascii (ascii_lower s) = true.
Proof.
  induction s as [| c s IH]; cbn; [reflexivity |].
  rewrite !andb_true_iff. intros [Hc Hs]. split; [| now apply IH].
  clear - Hc. revert Hc.
  destruct c as [[] [] [] [] [] [] [] []]; vm_compute; congruence.
Qed.

Lemma or_empty_some (d : string) : or_empty (Some d) = d.
Proof. now destruct d. Qed.

Lemma any_in_iff (kws : list string) (desc : string) :
  any_in kws desc = true <->
  exists kw a b, In kw kws /\ desc = a ++ kw ++ b.
Proof.
  unfold any_in. rewrite existsb_exists. split.
  - intros (kw & Hin & Hc). apply contains_iff in Hc.
    destruct Hc as (a & b & Hab). now exists kw, a, b.
  - intros (kw & a & b & Hin & Hab). exists kw. split; [exact Hin |].
    apply contains_iff. now exists a, b.
Qed.

(** Every text with USB-SERIAL in it has USB in it. *)
Lemma usb_serial_has_usb (desc : string) :
  contains "USB-SERIAL" desc = true -> contains "USB" desc = true.
Proof. apply contains_piece. reflexivity. Qed.

(** Every chipset keyword but USB-SERIAL is free of USB. *)
Lemma chipset_keywords_usb :
  map (contains "USB") CH340_KEYWORDS = [false; false; true].
Proof. reflexivity. Qed.

End Strings.

(* ------------------------------------------------------------------ *)
(** * Classification of the enumerated ports *)

Section Classification.
Variable up : string -> string.
Local Open Scope Z_scope.

Lemma mentions_iff (kws : list string) (p : ListPortInfo) :
  mentions up kws p <->
  any_in kws (up (or_empty (description p))) = true.
Proof. unfold mentions. now rewrite any_in_iff. Qed.

Lemma not_mentions_iff (kws : list string) (p : ListPortInfo) :
  ~ mentions up kws p <->
  any_in kws (up (or_empty (description p))) = false.
Proof. rewrite mentions_iff. now destruct (any_in _ _). Qed.

Lemma scan_port_classify (cands : list candidate) (p : ListPortInfo) :
  scan_port up cands p = cands ++ classify up p.
Proof.
  unfold classify, scan_port.
  destruct (any_in CH340_KEYWORDS _); [reflexivity |].
  destruct (any_in USB_KEYWORDS _); [reflexivity |].
  now rewrite app_nil_r.
Qed.

Lemma scan_from (ports : list ListPortInfo) (cands : list candidate) :
  fold_left (scan_port up) ports cands = cands ++ flat_map (classify up) ports.
Proof.
  revert cands. induction ports as [| p ports IH]; intros cands; cbn.
  - now rewrite app_nil_r.
  - now rewrite IH, scan_port_classify, app_assoc.
Qed.

(** The loop collects, port after port, what each port adds. *)
Lemma scan_ports_flat_map (ports : list ListPortInfo) :
  scan_ports up ports = flat_map (classify up) ports.
Proof. unfold scan_ports. now rewrite scan_from. Qed.

Lemma classify_chipset (p : ListPortInfo) :
  mentions up CH340_KEYWORDS p ->
  classify up p = [(device p, description p, 1)].
Proof.
  rewrite mentions_iff. unfold classify, scan_port. now intros ->.
Qed.

Lemma classify_generic (p : ListPortInfo) :
  ~ mentions up CH340_KEYWORDS p -> mentions up USB_KEYWORDS p ->
  classify up p = [(device p, description p, 2)].
Proof.
  rewrite not_mentions_iff, mentions_iff. unfold classify, scan_port.
  now intros -> ->.
Qed.

Lemma classify_neither (p : ListPortInfo) :
  ~ mentions up CH340_KEYWORDS p -> ~ mentions up USB_KEYWORDS p ->
  classify up p = [].
Proof.
  rewrite !not_mentions_iff. unfold classify, scan_port.
  now intros -> ->.
Qed.

Lemma classify_cases (p : ListPortInfo) :
  classify up p = [(device p, description p, 1)] \/
  classify up p = [(device p, description p, 2)] \/
  classify up p = [].
Proof.
  unfold classify, scan_port.
  destruct (any_in CH340_KEYWORDS _); [now left |].
  destruct (any_in USB_KEYWORDS _); [right; now left | right; now right].
Qed.

Lemma classify_depends_on_upper (p : ListPortInfo) (d d' : string) :
  up d = up d' ->
  map tier (classify up (described p d)) =
  map tier (classify up (described p d')).
Proof.
  intros Heq. unfold classify, scan_port, described; cbn [description].
  rewrite !or_empty_some, Heq.
  destruct (any_in CH340_KEYWORDS _); [reflexivity |].
  destruct (any_in USB_KEYWORDS _); reflexivity.
Qed.

(** C5: every enumerated port is classified on its uppercased
    description, [up] being [str.upper].  The candidate list is what the
    ports add one after the other, and a port adds: a tier-1 candidate
    when a chipset keyword (CH340, CH341, USB-SERIAL) occurs in the
    uppercased description; a tier-2 candidate when none does and USB
    occurs; nothing when neither occurs.  The description is looked at
    through [up] only: two descriptions with the same uppercase form are
    classified alike.  Where [up] does on ASCII text what [str.upper]
    does there (a-z to A-Z, the rest unchanged), an absent or empty
    description gives no candidate, and the letter case of an ASCII
    description plays no part. *)
Theorem classification_by_keywords
  (ports : list ListPortInfo) (p : ListPortInfo) :
  scan_ports up ports = flat_map (classify up) ports /\
  (mentions up CH340_KEYWORDS p ->
   classify up p = [(device p, description p, 1)]) /\
  (~ mentions up CH340_KEYWORDS p -> mentions up USB_KEYWORDS p ->
   classify up p = [(device p, description p, 2)]) /\
  (~ mentions up CH340_KEYWORDS p -> ~ mentions up USB_KEYWORDS p ->
   classify up p = []) /\
  (forall d d',
     up d = up d' ->
     map tier (classify up (described p d)) =
     map tier (classify up (described p d'))) /\
  ((forall s, is_ascii s = true -> up s = ascii_upper s) ->
   (description p = None \/ description p = Some EmptyString ->
    classify up p = []) /\
   (forall d,
      is_ascii d = true ->
      map tier (classify up (described p (ascii_lower d))) =
      map tier (classify up (described p d)) /\
      map tier (classify up (described p (ascii_upper d))) =
      map tier (classify up (described p d)))).
Proof.
  split; [apply scan_ports_flat_map |].
  split; [apply classify_chipset |].
  split; [apply classify_generic |].
  split; [apply classify_neither |].
  split; [intros d d'; apply classify_depends_on_upper |].
  intros Hascii. split.
  - assert (Hempty : up EmptyString = EmptyString)
      by now rewrite Hascii.
    unfold classify, scan_port.
    intros [-> | ->]; cbn [or_empty]; now rewrite Hempty.
  - intros d Hd. split; apply classify_depends_on_upper.
    + rewrite !Hascii by auto using is_ascii_lower. apply upper_lower.
    + rewrite !Hascii by auto using is_ascii_upper.
      apply upper_idempotent.
Qed.

(** C10: a port adds at most one candidate, and at one tier.  The
    chipset keywords are tried first: a description with a chipset
    keyword and with USB in it gives the tier-1 candidate and no tier-2
    candidate, and such is every description with USB-SERIAL in it. *)
Theorem one_candidate_per_port
  (ports : list ListPortInfo) (p : ListPortInfo) :
  (List.length (classify up p) <= 1)%nat /\
  (List.length (scan_ports up ports) <= List.length ports)%nat /\
  (forall c, In c (classify up p) ->
     classify up p = [c] /\ cand_device c = device p /\
     (tier c = 1 \/ tier c = 2)) /\
  (mentions up CH340_KEYWORDS p -> mentions up USB_KEYWORDS p ->
   classify up p = [(device p, description p, 1)] /\
   forall c, In c (classify up p) -> tier c <> 2) /\
  (contains "USB-SERIAL" (up (or_empty (description p))) = true ->
   mentions up CH340_KEYWORDS p /\ mentions up USB_KEYWORDS p /\
   classify up p = [(device p, description p, 1)]).
Proof.
  split; [| split; [| split; [| split]]].
  - destruct (classify_cases p) as [-> | [-> | ->]]; cbn; lia.
  - rewrite scan_ports_flat_map.
    induction ports as [| q ports IH]; cbn; [lia |].
    rewrite length_app.
    destruct (classify_cases q) as [-> | [-> | ->]]; cbn; lia.
  - intros c Hc.
    destruct (classify_cases p) as [H | [H | H]]; rewrite H in Hc |- *;
      cbn in Hc; [| | contradiction];
      destruct Hc as [<- | Hc]; try contradiction; cbn; auto.
  - intros H1 _. rewrite (classify_chipset H1). split; [reflexivity |].
    intros c [<- | []]. cbn. discriminate.
  - intros Hc.
    assert (H1 : mentions up CH340_KEYWORDS p).
    { apply mentions_iff. unfold any_in, CH340_KEYWORDS.
      cbn [existsb]. rewrite Hc. now rewrite !orb_true_r. }
    split; [exact H1 |]. split; [| now apply classify_chipset].
    apply mentions_iff. unfold any_in, USB_KEYWORDS. cbn [existsb].
    now rewrite (usb_serial_has_usb _ Hc).
Qed.

End Classification.

(* ------------------------------------------------------------------ *)
(** * Ranking: the stable sort and the candidate it puts first *)

Section SortFacts.
Variable A : Type.
Variable key : A -> Z.
Local Open Scope Z_scope.

Lemma insert_by_ascending (x : A) (l : list A) :
  ascending key l -> ascending key (insert_by key x l).
Proof.
  induction 1 as [| y | y z l Hyz Hzl IH]; cbn.
  - constructor.
  - destruct (Z.leb_spec (key x) (key y)); repeat constructor; lia.
  - destruct (Z.leb_spec (key x) (key y)).
    + repeat constructor; assumption.
    + cbn in IH. destruct (Z.leb_spec (key x) (key z)).
      * constructor; [lia |]. now constructor.
      * now constructor.
Qed.

Lemma sort_by_ascending (l : list A) : ascending key (sort_by key l).
Proof.
  induction l as [| x l IH]; cbn; [constructor |].
  now apply insert_by_ascending.
Qed.

Lemma insert_by_with_key (k : Z) (x : A) (l : list A) :
  with_key key k (insert_by key x l) = with_key key k (x :: l).
Proof.
  unfold with_key.
  induction l as [| y l IH]; [reflexivity |].
  cbn [insert_by]. destruct (Z.leb_spec (key x) (key y)) as [Hle | Hgt];
    [reflexivity |].
  cbn [filter] in *. rewrite IH.
  destruct (Z.eqb_spec (key y) k) as [Hy | Hy];
    destruct (Z.eqb_spec (key x) k) as [Hx | Hx];
    try reflexivity.
  lia.
Qed.

(** The sort is stable: the elements of one key keep their order. *)
Lemma sort_by_stable (k : Z) (l : list A) :
  with_key key k (sort_by key l) = with_key key k l.
Proof.
  induction l as [| x l IH]; [reflexivity |].
  cbn [sort_by]. rewrite insert_by_with_key.
  unfold with_key in *. cbn [filter]. now rewrite IH.
Qed.

Lemma insert_by_length (x : A) (l : list A) :
  List.length (insert_by key x l) = S (List.length l).
Proof.
  induction l as [| y l IH]; [reflexivity |].
  cbn. destruct (key x <=? key y); cbn; [reflexivity | now rewrite IH].
Qed.

Lemma sort_by_length (l : list A) :
  List.length (sort_by key l) = List.length l.
Proof.
  induction l as [| x l IH]; [reflexivity |].
  cbn. now rewrite insert_by_length, IH.
Qed.

Lemma insert_by_hd (x : A) (l : list A) :
  hd_error (insert_by key x l) =
  match hd_error l with
  | None => Some x
  | Some y => if key x <=? key y then Some x else Some y
  end.
Proof.
  destruct l as [| y l]; [reflexivity |].
  cbn. now destruct (key x <=? key y).
Qed.

(** The element the sort puts first is the earliest one of least key:
    everything before it in the list has a greater key, nothing after it
    has a smaller one. *)
Lemma sort_by_hd (l : list A) :
  l <> [] ->
  exists pre sel post,
    l = pre ++ sel :: post /\
    hd_error (sort_by key l) = Some sel /\
    (forall c, In c pre -> key sel < key c) /\
    (forall c, In c post -> key sel <= key c).
Proof.
  induction l as [| x l IH]; [congruence |]. intros _.
  destruct l as [| y l].
  - exists [], x, []. cbn. repeat split; intros c [].
  - destruct IH as (pre & sel & post & Hl & Hhd & Hpre & Hpost);
      [discriminate |].
    cbn [sort_by] in *. rewrite insert_by_hd, Hhd.
    destruct (Z.leb_spec (key x) (key sel)) as [Hle | Hgt].
    + exists [], x, (y :: l). repeat split; [intros c [] |].
      intros c Hc. rewrite Hl in Hc. apply in_app_or in Hc.
      destruct Hc as [Hc | [<- | Hc]].
      * specialize (Hpre c Hc). lia.
      * exact Hle.
      * specialize (Hpost c Hc). lia.
    + exists (x :: pre), sel, post. repeat split.
      * cbn. now rewrite Hl.
      * intros c [<- | Hc]; [lia | now apply Hpre].
      * exact Hpost.
Qed.

End SortFacts.

Section Ranking.
Local Open Scope Z_scope.

(** C4: from a non-empty candidate list the resolver takes the earliest
    candidate of the lowest tier.  The list splits around the selected
    candidate: every candidate before it has a greater tier, no candidate
    after it has a smaller one; so no candidate at all has a smaller
    tier, and with a tier-1 candidate anywhere in a list of tiers 1 and
    up, the selected one is of tier 1.  The sort behind the selection
    puts the tiers in ascending order and keeps the candidates of one
    tier in enumeration order. *)
Theorem select_lowest_tier_earliest (cs : list candidate) :
  cs <> [] ->
  exists pre sel post,
    cs = pre ++ sel :: post /\
    select cs = Some sel /\
    (forall c, In c pre -> tier sel < tier c) /\
    (forall c, In c post -> tier sel <= tier c) /\
    (forall c, In c cs -> tier sel <= tier c) /\
    ((exists c1, In c1 cs /\ tier c1 = 1) ->
     (forall c, In c cs -> 1 <= tier c) -> tier sel = 1) /\
    ascending tier (sort_by tier cs) /\
    (forall k, with_key tier k (sort_by tier cs) = with_key tier k cs).
Proof.
  intros Hne.
  destruct (sort_by_hd tier Hne)
    as (pre & sel & post & Hcs & Hhd & Hpre & Hpost).
  assert (Hmin : forall c, In c cs -> tier sel <= tier c).
  { intros c Hc. rewrite Hcs in Hc. apply in_app_or in Hc.
    destruct Hc as [Hc | [<- | Hc]].
    - specialize (Hpre c Hc). lia.
    - lia.
    - now apply Hpost. }
  exists pre, sel, post.
  split; [exact Hcs |]. split; [exact Hhd |].
  split; [exact Hpre |]. split; [exact Hpost |].
  split; [exact Hmin |]. split; [| split].
  - intros (c1 & Hin & Hc1) Hlow.
    specialize (Hmin c1 Hin).
    assert (In sel cs) as Hsel
      by (rewrite Hcs; apply in_or_app; right; now left).
    specialize (Hlow sel Hsel). lia.
  - apply sort_by_ascending.
  - intros k. apply sort_by_stable.
Qed.

(** The ranking of a chipset port against a generic one, in the two
    enumeration orders. *)
Example port_ranking :
  select [("portB"%string, Some "Generic USB Serial"%string, 2);
          ("portA"%string, Some "CH340 serial"%string, 1)] =
    Some ("portA"%string, Some "CH340 serial"%string, 1) /\
  select [("portA"%string, Some "CH340 serial"%string, 1);
          ("portB"%string, Some "Generic USB Serial"%string, 2)] =
    Some ("portA"%string, Some "CH340 serial"%string, 1).
Proof. split; reflexivity. Qed.

(** Two chipset ports: the first enumerated wins. *)
Example first_of_equal_tier :
  select (scan_ports ascii_upper
    [ {| device := "COM7"; description := Some "usb hub"%string |};
      {| device := "COM5"; description := Some "USB-SERIAL CH340 (COM5)"%string |};
      {| device := "COM1"; description := None |};
      {| device := "COM3"; description := Some "ch341 adapter"%string |} ]) =
  Some ("COM5"%string, Some "USB-SERIAL CH340 (COM5)"%string, 1).
Proof. reflexivity. Qed.

Lemma select_lowest_tier_earliest_witness :
  [("portB"%string, Some "Generic USB Serial"%string, 2);
   ("portA"%string, Some "CH340 serial"%string, 1)] <> [] /\
  exists sel,
    select [("portB"%string, Some "Generic USB Serial"%string, 2);
            ("portA"%string, Some "CH340 serial"%string, 1)] = Some sel /\
    tier sel = 1.
Proof.
  split; [discriminate |].
  destruct (@select_lowest_tier_earliest
              [("portB"%string, Some "Generic USB Serial"%string, 2);
               ("portA"%string, Some "CH340 serial"%string, 1)])
    as (pre & sel & post & _ & Hsel & _ & _ & _ & Hone & _);
    [discriminate |].
  exists sel. split; [exact Hsel |].
  apply Hone.
  - eexists. split; [right; left; reflexivity | reflexivity].
  - intros c [<- | [<- | []]]; cbn; lia.
Defined.

End Ranking.

(* ------------------------------------------------------------------ *)
(** * Port resolution: [_auto_detect_port] and [__init__] *)

Section Discovery.
Variable E : Env.

Lemma now_log (ev : event) (w : World) : now (log ev w) = S (now w).
Proof. unfold now, log; cbn. rewrite length_app; cbn. lia. Qed.

Lemma select_none (cs : list candidate) : select cs = None -> cs = [].
Proof.
  unfold select. intros H.
  apply length_zero_iff_nil.
  rewrite <- (sort_by_length tier cs).
  now destruct (sort_by tier cs).
Qed.

Lemma no_match_no_candidate (ports : list ListPortInfo) :
  (forall p, In p ports ->
     ~ mentions (str_upper E) CH340_KEYWORDS p /\
     ~ mentions (str_upper E) USB_KEYWORDS p) ->
  scan_ports (str_upper E) ports = [].
Proof.
  rewrite scan_ports_flat_map.
  induction ports as [| p ports IH]; intros Hno; [reflexivity |].
  cbn. destruct (Hno p (or_introl eq_refl)) as [H1 H2].
  rewrite (classify_neither H1 H2). cbn.
  apply IH. intros q Hq. apply Hno. now right.
Qed.

(** Discovery with no candidate: one enumeration, then the error. *)
Lemma auto_detect_no_candidate (w : World) :
  scan_ports (str_upper E) (comports E) = [] ->
  _auto_detect_port E w =
  (Raise (RuntimeError NO_DEVICE_MSG None), log EvComports w).
Proof.
  intros Hnone. unfold _auto_detect_port, bind, list_comports.
  now rewrite Hnone.
Qed.

(** Discovery with a candidate: the enumeration, then the probe of the
    selected port. *)
Lemma auto_detect_candidate (w : World) (sel : candidate) :
  select (scan_ports (str_upper E) (comports E)) = Some sel ->
  _auto_detect_port E w =
  (except_serial (probe E (cand_device sel))
     (fun e =>
        raise (RuntimeError (DRIVER_CHECK_MSG (cand_device sel) e) (Some e)))
   ;;; ret (cand_device sel)) (log EvComports w).
Proof.
  intros Hsel. unfold _auto_detect_port, list_comports.
  unfold bind at 1.
  destruct (scan_ports (str_upper E) (comports E)) as [| c cs] eqn:Hscan;
    [discriminate |].
  rewrite Hsel. now destruct sel as [[name desc] t].
Qed.

Lemma opens_app (tr tr' : list event) :
  opens (tr ++ tr') = opens tr ++ opens tr'.
Proof. unfold opens. apply flat_map_app. Qed.

Lemma sent_app (tr tr' : list event) :
  sent (tr ++ tr') = sent tr ++ sent tr'.
Proof. unfold sent. apply flat_map_app. Qed.

(** C6: when the port list is empty or no port matches a keyword of
    either set, port resolution raises the discovery error after the
    enumeration alone: no port is opened, the probe is not reached, and
    construction without a port fails the same way. *)
Theorem no_candidate_discovery_failure (w : World) :
  (forall p, In p (comports E) ->
     ~ mentions (str_upper E) CH340_KEYWORDS p /\
     ~ mentions (str_upper E) USB_KEYWORDS p) ->
  _auto_detect_port E w =
    (Raise (RuntimeError NO_DEVICE_MSG None), log EvComports w) /\
  opens (trace (snd (_auto_detect_port E w))) = opens (trace w) /\
  held (snd (_auto_detect_port E w)) = held w /\
  (forall verbose,
     __init__ E None verbose w =
     (Raise (RuntimeError NO_DEVICE_MSG None), log EvComports w)).
Proof.
  intros Hno. apply no_match_no_candidate in Hno.
  pose proof (auto_detect_no_candidate w Hno) as Hrun.
  rewrite Hrun. cbn [snd].
  split; [reflexivity |]. split; [| split; [reflexivity |]].
  - unfold log; cbn [trace]. rewrite opens_app. cbn. apply app_nil_r.
  - intros verbose. unfold __init__, bind. now rewrite Hrun.
Qed.

Lemma driver_check_is_not_no_device (name : string) (e : SerialException) :
  DRIVER_CHECK_MSG name e <> NO_DEVICE_MSG.
Proof. unfold DRIVER_CHECK_MSG, NO_DEVICE_MSG. cbn. discriminate. Qed.

(** C8: when opening the selected candidate for the probe fails in the
    transport, resolution fails with the driver-check error: it names
    the port, ends with the text of the transport error and is raised
    from it; its message is not that of the discovery error, and no
    port stays open. *)
Theorem probe_failure_access_error
  (w : World) (sel : candidate) (e : SerialException) :
  select (scan_ports (str_upper E) (comports E)) = Some sel ->
  open_error E (S (now w)) (cand_device sel) = Some e ->
  _auto_detect_port E w =
    (Raise (RuntimeError (DRIVER_CHECK_MSG (cand_device sel) e) (Some e)),
     log (EvOpen (cand_device sel) BAUD_RATE 100) (log EvComports w)) /\
  DRIVER_CHECK_MSG (cand_device sel) e <> NO_DEVICE_MSG /\
  RuntimeError (DRIVER_CHECK_MSG (cand_device sel) e) (Some e) <>
    RuntimeError NO_DEVICE_MSG None /\
  (exists front,
     DRIVER_CHECK_MSG (cand_device sel) e = (front ++ reason e)%string) /\
  held (snd (_auto_detect_port E w)) = held w.
Proof.
  intros Hsel Hfail.
  assert (Hrun :
    _auto_detect_port E w =
    (Raise (RuntimeError (DRIVER_CHECK_MSG (cand_device sel) e) (Some e)),
     log (EvOpen (cand_device sel) BAUD_RATE 100) (log EvComports w))).
  { rewrite (auto_detect_candidate w Hsel).
    unfold bind, except_serial, probe, Serial_new.
    rewrite now_log, Hfail. reflexivity. }
  rewrite Hrun. cbn [snd].
  split; [reflexivity |].
  split; [apply driver_check_is_not_no_device |].
  split; [discriminate |].
  split; [| reflexivity].
  exists ("Driver check failed for " ++ cand_device sel ++ ": ")%string.
  unfold DRIVER_CHECK_MSG. now rewrite !append_assoc.
Qed.

End Discovery.

Section DiscoveryRuns.

Lemma no_candidate_discovery_failure_witness :
  (forall p, In p (comports (quiet_env [modem_port; bare_port] 0 [])) ->
     ~ mentions ascii_upper CH340_KEYWORDS p /\
     ~ mentions ascii_upper USB_KEYWORDS p) /\
  _auto_detect_port (quiet_env [modem_port; bare_port] 0 []) start =
    (Raise (RuntimeError NO_DEVICE_MSG None),
     {| trace := [EvComports]; held := [] |}).
Proof.
  assert (Hno : forall p,
            In p (comports (quiet_env [modem_port; bare_port] 0 [])) ->
            ~ mentions ascii_upper CH340_KEYWORDS p /\
            ~ mentions ascii_upper USB_KEYWORDS p).
  { intros p [<- | [<- | []]]; split; apply not_mentions_iff;
      reflexivity. }
  split; [exact Hno |].
  exact (proj1 (no_candidate_discovery_failure
                  (quiet_env [modem_port; bare_port] 0 []) start Hno)).
Defined.

Lemma probe_failure_access_error_witness :
  select (scan_ports ascii_upper
            (comports (busy_env [generic_port; relay_port]))) =
    Some ("COM3"%string, Some "USB-SERIAL CH340 (COM3)"%string, 1%Z) /\
  open_error (busy_env [generic_port; relay_port]) (S (now start)) "COM3" =
    Some ACCESS_DENIED /\
  _auto_detect_port (busy_env [generic_port; relay_port]) start =
    (Raise (RuntimeError (DRIVER_CHECK_MSG "COM3" ACCESS_DENIED)
              (Some ACCESS_DENIED)),
     {| trace := [EvComports; EvOpen "COM3" BAUD_RATE 100]; held := [] |}).
Proof.
  split; [reflexivity |]. split; [reflexivity |].
  exact (proj1 (@probe_failure_access_error
                  (busy_env [generic_port; relay_port]) start
                  ("COM3"%string, Some "USB-SERIAL CH340 (COM3)"%string, 1%Z)
                  ACCESS_DENIED eq_refl eq_refl)).
Defined.

End DiscoveryRuns.

(* ------------------------------------------------------------------ *)
(** * Construction: when discovery runs *)

Section Construction.
Variable E : Env.

Lemma release_head (p : string) (l : list string) :
  release p (p :: l) = l.
Proof. cbn. now rewrite String.eqb_refl. Qed.

(** The probe opens the port and closes it again, or fails to open it. *)
Lemma probe_outcome (name : string) (w : World) :
  probe E name w =
  match open_error E (now w) name with
  | Some e => (Raise (SerialError e), log (EvOpen name BAUD_RATE 100) w)
  | None =>
      (Ok tt,
       {| trace := trace w ++ [EvOpen name BAUD_RATE 100; EvClose name];
          held := held w |})
  end.
Proof.
  unfold probe, Serial_new.
  destruct (open_error E (now w) name); [reflexivity |].
  unfold close, log; cbn. rewrite String.eqb_refl.
  now rewrite <- app_assoc.
Qed.

(** Discovery begins with the enumeration of the ports, whatever comes
    after, and leaves no port open. *)
Lemma auto_detect_enumerates (w : World) :
  (exists rest,
     trace (snd (_auto_detect_port E w)) = trace w ++ EvComports :: rest) /\
  held (snd (_auto_detect_port E w)) = held w.
Proof.
  destruct (select (scan_ports (str_upper E) (comports E))) as [sel |] eqn:Hsel.
  - rewrite (auto_detect_candidate E w Hsel).
    unfold bind, except_serial. rewrite probe_outcome.
    destruct (open_error E (now (log EvComports w)) (cand_device sel));
      cbn; (split; [| reflexivity]); rewrite <- app_assoc;
      eexists; reflexivity.
  - apply select_none in Hsel.
    rewrite (auto_detect_no_candidate E w Hsel). cbn.
    split; [now exists [] | reflexivity].
Qed.

(** Without a port, and with the empty string for a port, construction
    is discovery followed by the assignment of the attributes. *)
Lemma init_discovers (port : option string) (verbose : bool) (w : World) :
  port = None \/ port = Some EmptyString ->
  __init__ E port verbose w =
  match _auto_detect_port E w with
  | (Ok name, w') =>
      (Ok {| verbose := verbose; port_name := name; serial_port := None |},
       w')
  | (Raise e, w') => (Raise e, w')
  end.
Proof.
  intros [-> | ->]; unfold __init__, bind; cbn;
    now destruct (_auto_detect_port E w) as [[name | e] w'].
Qed.

(** C7, as the code has it: a port identifier other than the empty
    string is taken as it is, and construction makes no call at all: no
    enumeration, no probe.  Discovery runs when the port is omitted, and
    also when it is the empty string; it then starts with the
    enumeration of the ports. *)
Theorem explicit_port_bypasses_discovery
  (port : string) (verbose : bool) (w : World) :
  port <> EmptyString ->
  __init__ E (Some port) verbose w =
    (Ok {| verbose := verbose; port_name := port; serial_port := None |},
     w) /\
  __init__ E (Some EmptyString) verbose w = __init__ E None verbose w /\
  (exists rest,
     trace (snd (__init__ E None verbose w)) =
     trace w ++ EvComports :: rest).
Proof.
  intros Hport. split; [| split].
  - destruct port as [| ch port]; [congruence | reflexivity].
  - now rewrite !init_discovers by auto.
  - rewrite init_discovers by auto.
    destruct (auto_detect_enumerates w) as [[rest Hrest] _].
    exists rest.
    now destruct (_auto_detect_port E w) as [[name | e] w'].
Qed.

End Construction.

Section ConstructionRuns.

(** C7, as it is worded, fails on the empty string: given explicitly as
    the port, it is not used as the port name; the ports are enumerated
    and the selected one is probed and used. *)
Lemma explicit_empty_port_runs_discovery :
  ~ (forall (E : Env) (port : string) (verbose : bool) (w : World),
       __init__ E (Some port) verbose w =
       (Ok {| verbose := verbose; port_name := port; serial_port := None |},
        w)).
Proof.
  intros Hclaim.
  specialize (Hclaim (quiet_env [relay_port] 0 []) EmptyString false start).
  assert (Hrun :
    __init__ (quiet_env [relay_port] 0 []) (Some EmptyString) false start =
    (Ok {| verbose := false; port_name := "COM3"; serial_port := None |},
     {| trace := [EvComports; EvOpen "COM3" BAUD_RATE 100; EvClose "COM3"];
        held := [] |})) by reflexivity.
  rewrite Hrun in Hclaim. discriminate.
Qed.

Lemma explicit_port_bypasses_discovery_witness :
  "COM5"%string <> EmptyString /\
  __init__ (busy_env [relay_port]) (Some "COM5"%string) true start =
    (Ok {| verbose := true; port_name := "COM5"; serial_port := None |},
     start).
Proof.
  split; [discriminate |].
  apply (@explicit_port_bypasses_discovery
           (busy_env [relay_port]) "COM5" true start).
  discriminate.
Defined.

End ConstructionRuns.

(* ------------------------------------------------------------------ *)
(** * The transaction *)

Section Transaction.
Variable E : Env.

Lemma keeps_refl (st : Self) : keeps st st.
Proof. split; [reflexivity |]. intros s Hs. now exists s. Qed.

Lemma keeps_trans (st1 st2 st3 : Self) :
  keeps st1 st2 -> keeps st2 st3 -> keeps st1 st3.
Proof.
  intros [Hh1 Hc1] [Hh2 Hc2]. split; [congruence |].
  intros s Hs. destruct (Hc1 s Hs) as (s' & Hs' & Hp').
  destruct (Hc2 s' Hs') as (s'' & Hs'' & Hp'').
  exists s''. split; [assumption | congruence].
Qed.

Lemma silent_refl (st : Self) : silent st st.
Proof. exists []. now rewrite app_nil_r. Qed.

Lemma silent_trans (st1 st2 st3 : Self) :
  silent st1 st2 -> silent st2 st3 -> silent st1 st3.
Proof.
  intros (ev1 & Ht1 & Hs1 & Ho1) (ev2 & Ht2 & Hs2 & Ho2).
  exists (ev1 ++ ev2). rewrite Ht2, Ht1, <- app_assoc.
  rewrite sent_app, opens_app, Hs1, Hs2, Ho1, Ho2. auto.
Qed.

Section Respect.
Variable R : Self -> Self -> Prop.
Hypothesis R_refl : forall st, R st st.
Hypothesis R_trans : forall st1 st2 st3, R st1 st2 -> R st2 st3 -> R st1 st3.

Lemma respects_ret {A} (a : A) : respects R (ret a).
Proof. intros st. apply R_refl. Qed.

Lemma respects_raise {A} (e : exn) : respects R (@raise Self A e).
Proof. intros st. apply R_refl. Qed.

Lemma respects_lift_res {A} (r : Res A) : respects R (lift_res r).
Proof. intros st. apply R_refl. Qed.

Lemma respects_bind {A B} (m : M Self A) (k : A -> M Self B) :
  respects R m -> (forall a, respects R (k a)) -> respects R (bind m k).
Proof.
  intros Hm Hk st. unfold bind. specialize (Hm st).
  destruct (m st) as [[a | e] st1]; cbn in *; [| exact Hm].
  eapply R_trans; [exact Hm | apply Hk].
Qed.
End Respect.

Lemma deliver_port (w : World) (s : Serial) :
  port (deliver E w s) = port s /\ is_open (deliver E w s) = is_open s.
Proof. unfold deliver. now destruct (is_open s) eqn:Ho. Qed.

(** A call on the connection of [self], spelled out. *)
Lemma on_port_call {A} (ev : event) (act : Serial -> A * Serial)
  (c : RelayController) (s : Serial) (w : World) :
  connected c s ->
  on_port (port_call E ev act) (c, w) =
  match io_error E (now w) with
  | Some e =>
      (Raise (SerialError e),
       (set_serial_port c (Some (deliver E w s)), log ev w))
  | None =>
      (Ok (fst (act (deliver E w s))),
       (set_serial_port c (Some (snd (act (deliver E w s)))), log ev w))
  end.
Proof.
  intros [Hs Ho]. unfold on_port, port_call. rewrite Hs, Ho. cbn.
  destruct (io_error E (now w)); [reflexivity |].
  now destruct (act (deliver E w s)).
Qed.

Lemma on_port_call_trace {A} (ev : event) (act : Serial -> A * Serial)
  (c : RelayController) (w : World) :
  trace (snd (snd (on_port (port_call E ev act) (c, w)))) =
  trace w ++ match serial_port c with None => [] | Some _ => [ev] end.
Proof.
  unfold on_port, port_call.
  destruct (serial_port c) as [s |]; cbn; [| now rewrite app_nil_r].
  destruct (is_open s); cbn; [| reflexivity].
  destruct (io_error E (now w)); [reflexivity |].
  now destruct (act (deliver E w s)).
Qed.

Lemma on_port_call_keeps {A} (ev : event) (act : Serial -> A * Serial) :
  gentle act -> respects keeps (on_port (port_call E ev act)).
Proof.
  intros Hact [c w]. unfold on_port, port_call.
  destruct (serial_port c) as [s |] eqn:Hs; cbn;
    [| split; [reflexivity | intros s [Hc _]; cbn in Hc; congruence]].
  destruct (is_open s) eqn:Ho; cbn.
  - destruct (deliver_port w s) as [Hp Hd].
    destruct (io_error E (now w)); cbn.
    + split; [reflexivity |]. intros x [Hc0 Ho0]; cbn in Hc0.
      assert (x = s) by congruence; subst x.
      exists (deliver E w s). repeat split; congruence.
    + destruct (Hact (deliver E w s)) as [Hp' Ho'].
      destruct (act (deliver E w s)) as [a s2]; cbn in *.
      split; [reflexivity |]. intros x [Hc0 Ho0]; cbn in Hc0.
      assert (x = s) by congruence; subst x.
      exists s2. repeat split; congruence.
  - split; [reflexivity |]. intros x [Hc0 Ho0]; cbn in Hc0.
    assert (x = s) by congruence; subst x. congruence.
Qed.

Lemma on_port_call_silent {A} (ev : event) (act : Serial -> A * Serial) :
  sent [ev] = [] -> opens [ev] = [] ->
  respects silent (on_port (port_call E ev act)).
Proof.
  intros Hsent Hopens [c w]. unfold silent.
  rewrite on_port_call_trace. cbn [snd fst].
  destruct (serial_port c); eexists; split; try reflexivity; auto.
Qed.

Lemma sleep_keeps (ms : Z) : respects keeps (sleep E ms).
Proof.
  intros [c w]. unfold sleep; cbn. split; [reflexivity |].
  intros s [Hs Ho]; cbn in Hs. rewrite Hs; cbn.
  destruct (deliver_port w s) as [Hp Hd].
  exists (deliver E w s). repeat split; congruence.
Qed.

Lemma sleep_silent (ms : Z) : respects silent (sleep E ms).
Proof. intros [c w]. now exists [EvSleep ms]. Qed.

Lemma gentle_write (data : bytes) :
  gentle (fun s : Serial => (List.length data, s)).
Proof. now intros s. Qed.

Lemma gentle_unit : gentle (fun s : Serial => (tt, s)).
Proof. now intros s. Qed.

Lemma gentle_in_waiting :
  gentle (fun s : Serial => (List.length (in_buffer s), s)).
Proof. now intros s. Qed.

Lemma gentle_read (size : nat) :
  gentle (fun s : Serial =>
            (firstn size (in_buffer s),
             set_buffer s (skipn size (in_buffer s)))).
Proof. now intros s. Qed.

Lemma gentle_reset : gentle (fun s : Serial => (tt, set_buffer s [])).
Proof. now intros s. Qed.

Create HintDb relay.
Hint Resolve gentle_write gentle_unit gentle_in_waiting gentle_read
  gentle_reset : relay.

Lemma send_command_unfold (command : bytes) (c : RelayController)
  (w : World) :
  _send_command E command (c, w) =
  if port_not_opened c then
    (Raise (RuntimeError "Serial port not opened" None), (c, w))
  else (on_port (write E command) ;;; after_write E) (c, w).
Proof. reflexivity. Qed.

Lemma after_write_keeps : respects keeps (after_write E).
Proof.
  unfold after_write.
  repeat first
    [ apply respects_bind; [exact keeps_trans | | intros ?]
    | apply on_port_call_keeps; auto with relay
    | apply sleep_keeps
    | apply respects_ret; exact keeps_refl
    | match goal with |- respects _ (if ?b then _ else _) => destruct b end ].
Qed.

Lemma after_write_silent : respects silent (after_write E).
Proof.
  unfold after_write.
  repeat first
    [ apply respects_bind; [exact silent_trans | | intros ?]
    | apply on_port_call_silent; reflexivity
    | apply sleep_silent
    | apply respects_ret; exact silent_refl
    | match goal with |- respects _ (if ?b then _ else _) => destruct b end ].
Qed.

End Transaction.

Section Frames.
Variable E : Env.

Lemma not_opened_connected (c : RelayController) :
  port_not_opened c = false -> exists s, connected c s.
Proof.
  unfold port_not_opened, connected.
  destruct (serial_port c) as [s |]; [| discriminate].
  intros Ho. exists s. split; [reflexivity |]. now destruct (is_open s).
Qed.

Lemma connected_opened (c : RelayController) (s : Serial) :
  connected c s -> port_not_opened c = false.
Proof. intros [Hs Ho]. unfold port_not_opened. now rewrite Hs, Ho. Qed.

(** The calls of one [_send_command]: nothing on a connection that is not
    open; else the [write] of the command, then calls that write nothing
    and open nothing. *)
Lemma send_command_trace (command : bytes) (c : RelayController) (w : World) :
  exists evs,
    trace (snd (snd (_send_command E command (c, w)))) =
    trace w ++ (if port_not_opened c then [] else EvWrite command :: evs) /\
    sent evs = [] /\ opens evs = [].
Proof.
  rewrite send_command_unfold.
  destruct (port_not_opened c) eqn:Hopen.
  - exists []. cbn. now rewrite app_nil_r.
  - destruct (not_opened_connected c Hopen) as (s & Hs & Ho).
    unfold bind.
    pose proof (on_port_call_trace E (EvWrite command)
                  (fun s : Serial => (List.length command, s)) c w) as Hw.
    rewrite Hs in Hw. fold (write E command) in Hw.
    destruct (on_port (write E command) (c, w)) as [[n | e] st1].
    + destruct (after_write_silent E st1) as (evs & Ht & Hsent & Hopens).
      exists evs. rewrite Ht. cbn in Hw. rewrite Hw, <- app_assoc. auto.
    + exists []. cbn in *. auto.
Qed.

Lemma send_command_keeps (command : bytes) :
  respects keeps (_send_command E command).
Proof.
  intros [c w]. rewrite send_command_unfold.
  destruct (port_not_opened c); [apply keeps_refl |].
  apply (respects_bind keeps_trans).
  - apply on_port_call_keeps, gentle_write.
  - intros _. apply after_write_keeps.
Qed.

(** Decoding and returning the verdict change nothing. *)
Lemma execute_action_state (action : string) (command : bytes) (st : Self) :
  snd (_execute_action E action command st) =
  snd (_send_command E command st).
Proof.
  unfold _execute_action, bind, lift_res, ret.
  destruct (_send_command E command st) as [[response | e] st1];
    [| reflexivity].
  now destruct (_parse_status response).
Qed.

Lemma execute_action_result (action : string) (command : bytes) (st : Self) :
  fst (_execute_action E action command st) =
  rbind (fst (_send_command E command st)) _parse_status.
Proof.
  unfold _execute_action, bind, lift_res, ret.
  destruct (_send_command E command st) as [[response | e] st1];
    [| reflexivity].
  cbn. now destruct (_parse_status response).
Qed.

(** The four operations are [_execute_action] on the four constants; the
    label of the action is for the console only. *)
Lemma actions_execute (a : Action) :
  actions E a =
  _execute_action E EmptyString
    match a with
    | ActOn => CMD_ON
    | ActOff => CMD_OFF
    | ActToggle => CMD_TOGGLE
    | ActStatus => CMD_STATUS
    end.
Proof. destruct a; reflexivity. Qed.

(** C2: what a public operation hands to [write].  On an open connection
    it is one byte sequence, the four-byte frame of the command (OFF:
    A0 01 00 A1, ON: A0 01 03 A4, TOGGLE: A0 01 04 A5, STATUS:
    A0 01 05 A6), whatever the controller, the world and the environment
    are; on a connection that is not open it is nothing. *)
Theorem frames_written (a : Action) (c : RelayController) (w : World) :
  sent (trace (snd (snd (actions E a (c, w))))) =
  sent (trace w) ++
  (if port_not_opened c then []
   else [match a with
         | ActOff => [xa0; x01; x00; xa1]
         | ActOn => [xa0; x01; x03; xa4]
         | ActToggle => [xa0; x01; x04; xa5]
         | ActStatus => [xa0; x01; x05; xa6]
         end]).
Proof.
  rewrite actions_execute, execute_action_state.
  match goal with
  | |- context [_send_command E ?cmd _] =>
      destruct (send_command_trace cmd c w) as (evs & -> & Hsent & _)
  end.
  rewrite sent_app. f_equal.
  destruct (port_not_opened c); [reflexivity |].
  cbn [sent flat_map]. fold (sent evs). rewrite Hsent.
  now destruct a.
Qed.

End Frames.

(* ------------------------------------------------------------------ *)
(** * Reading the answer *)

Section Reading.
Variable E : Env.

Lemma buffered_0 (s : Serial) (t : nat) : buffered E s t 0 = in_buffer s.
Proof. unfold buffered. cbn. apply app_nil_r. Qed.

Lemma buffered_S (s : Serial) (t n : nat) :
  buffered E s t (S n) = buffered E s t n ++ arrival E (t + n).
Proof.
  unfold buffered. rewrite seq_S, map_app, concat_app. cbn.
  now rewrite app_nil_r, app_assoc.
Qed.

Lemma arrived_0 (s : Serial) (t : nat) : arrived E s t 0 = s.
Proof. unfold arrived. rewrite buffered_0. now destruct s. Qed.

Lemma deliver_arrived (s : Serial) (t k : nat) (w : World) :
  is_open s = true -> now w = t + k ->
  deliver E w (arrived E s t k) = arrived E s t (S k).
Proof.
  intros Ho Hnow. destruct s as [p o b]. cbn in Ho. subst o.
  unfold deliver, arrived, set_buffer. cbn [is_open port in_buffer].
  now rewrite buffered_S, Hnow.
Qed.

Lemma bind_eq {S A B} (m : M S A) (k : A -> M S B) (st : S) :
  bind m k st =
  match m st with
  | (Ok a, st') => k a st'
  | (Raise e, st') => (Raise e, st')
  end.
Proof. reflexivity. Qed.

(** A call that succeeds, on a connection described by what arrived. *)
Lemma call_step {A} (ev : event) (act : Serial -> A * Serial)
  (c : RelayController) (s : Serial) (t k : nat) (w : World) :
  is_open s = true -> now w = t + k -> io_error E (t + k) = None ->
  on_port (port_call E ev act) (set_serial_port c (Some (arrived E s t k)), w) =
  (Ok (fst (act (arrived E s t (S k)))),
   (set_serial_port c (Some (snd (act (arrived E s t (S k))))), log ev w)).
Proof.
  intros Ho Hnow Hio.
  rewrite (@on_port_call E A ev act _ (arrived E s t k) w)
    by (split; [reflexivity | exact Ho]).
  rewrite Hnow, Hio, (deliver_arrived s t k w Ho Hnow).
  reflexivity.
Qed.

Lemma sleep_step (ms : Z) (c : RelayController) (s : Serial) (t k : nat)
  (w : World) :
  is_open s = true -> now w = t + k ->
  sleep E ms (set_serial_port c (Some (arrived E s t k)), w) =
  (Ok tt,
   (set_serial_port c (Some (arrived E s t (S k))), log (EvSleep ms) w)).
Proof.
  intros Ho Hnow. unfold sleep. cbn [serial_port set_serial_port option_map].
  now rewrite (deliver_arrived s t k w Ho Hnow).
Qed.

Ltac moment := rewrite ?now_log; auto; lia.

(** Up to the check of the buffer: write, flush, settle wait, and the
    number of bytes buffered by then decides what follows. *)
Lemma send_command_check (command : bytes) (c : RelayController)
  (s : Serial) (w : World) :
  is_open s = true -> no_io_error E (now w) 4 ->
  _send_command E command (set_serial_port c (Some s), w) =
  (if 0 <? List.length (buffered E s (now w) 4) then
     size <- on_port (in_waiting E) ;;
     response <- on_port (read E size) ;;
     ret (Some response)
   else ret None) (at_check E command c s w).
Proof.
  intros Ho Hio.
  rewrite send_command_unfold.
  unfold port_not_opened. cbn [serial_port set_serial_port]. rewrite Ho.
  cbn [negb].
  assert (Hstart : set_serial_port c (Some s) =
                   set_serial_port c (Some (arrived E s (now w) 0)))
    by now rewrite arrived_0.
  rewrite Hstart. clear Hstart.
  rewrite bind_eq. unfold write.
  rewrite (call_step _ _ c s (now w) 0 w) by (auto; apply Hio; lia).
  cbv beta iota. cbn [fst snd].
  unfold after_write. rewrite bind_eq. unfold flush.
  rewrite (call_step _ _ c s (now w) 1) by (try (apply Hio; lia); moment).
  cbv beta iota. cbn [fst snd].
  rewrite bind_eq, (sleep_step _ c s (now w) 2) by moment.
  cbv beta iota.
  rewrite bind_eq. unfold in_waiting at 1.
  rewrite (call_step _ _ c s (now w) 3) by (try (apply Hio; lia); moment).
  reflexivity.
Qed.

(** From the check on, with bytes buffered: the size is asked for again
    and that many bytes are read, which is all there is. *)
Lemma read_after_check (command : bytes) (c : RelayController)
  (s : Serial) (w : World) :
  is_open s = true ->
  io_error E (now w + 4) = None -> io_error E (now w + 5) = None ->
  (size <- on_port (in_waiting E) ;;
   response <- on_port (read E size) ;;
   ret (Some response)) (at_check E command c s w) =
  (Ok (Some (buffered E s (now w) 5)), at_read E command c s w).
Proof.
  intros Ho H4 H5. unfold at_check.
  rewrite bind_eq. unfold in_waiting.
  rewrite (call_step _ _ c s (now w) 4) by moment.
  cbv beta iota. cbn [fst snd].
  rewrite bind_eq. unfold read.
  rewrite (call_step _ _ c s (now w) 5) by moment.
  cbv beta iota. cbn [fst snd]. unfold ret, at_read, at_check.
  unfold arrived, set_buffer. cbn [in_buffer port is_open snd].
  rewrite (buffered_S s (now w) 5).
  rewrite firstn_app, firstn_all, Nat.sub_diag, firstn_O, app_nil_r.
  rewrite skipn_app, skipn_all, Nat.sub_diag, skipn_O.
  reflexivity.
Qed.

Lemma connected_self (c : RelayController) (s : Serial) :
  connected c s -> set_serial_port c (Some s) = c.
Proof. intros [Hs _]. destruct c; cbn in *. now subst. Qed.

Lemma no_io_error_within (t n m : nat) :
  m <= n -> no_io_error E t n -> no_io_error E t m.
Proof. intros Hle Hio i Hi. apply Hio. lia. Qed.

(** C3: a transaction on an open connection whose first four calls
    (write, flush, settle wait, size of the input buffer) meet no
    transport error.  [buffered E s (now w) 4] is what the input buffer
    holds after the settle wait, when its size is asked for.
    - If that is nothing, the verdict is UNKNOWN and the transaction is
      over: the calls made are those four, with no read, no second wait
      and no second write.
    - If that is something, and the two calls that follow meet no
      transport error either, the size is asked for once more and one
      [read] of that size returns the whole buffer, however long; the
      verdict is the decoding of that whole buffer. *)
Theorem transaction_reads_whole_buffer
  (action : string) (command : bytes) (c : RelayController) (s : Serial)
  (w : World) :
  connected c s -> no_io_error E (now w) 4 ->
  (buffered E s (now w) 4 = [] ->
   fst (_execute_action E action command (c, w)) = Ok UNKNOWN /\
   trace (snd (snd (_execute_action E action command (c, w)))) =
   trace w ++ [EvWrite command; EvFlush; EvSleep RESPONSE_DELAY; EvInWaiting])
  /\
  (buffered E s (now w) 4 <> [] -> no_io_error E (now w) 6 ->
   fst (_send_command E command (c, w)) =
     Ok (Some (buffered E s (now w) 5)) /\
   fst (_execute_action E action command (c, w)) =
     _parse_status (Some (buffered E s (now w) 5)) /\
   trace (snd (snd (_execute_action E action command (c, w)))) =
   trace w ++ [EvWrite command; EvFlush; EvSleep RESPONSE_DELAY; EvInWaiting;
               EvInWaiting; EvRead (List.length (buffered E s (now w) 5))] /\
   (exists s', serial_port (fst (snd (_execute_action E action command (c, w))))
               = Some s' /\ in_buffer s' = arrival E (now w + 5))).
Proof.
  intros Hconn Hio.
  pose proof (@send_command_check command c s w (proj2 Hconn) Hio) as Hrun.
  rewrite (connected_self Hconn) in Hrun.
  rewrite execute_action_state, execute_action_result.
  split.
  - intros Hempty. rewrite Hrun, Hempty. cbn [List.length Nat.ltb Nat.leb].
    unfold ret, at_check, log. cbn.
    split; [reflexivity |]. now rewrite <- !app_assoc.
  - intros Hsome Hio6.
    assert (Hlen : (0 <? List.length (buffered E s (now w) 4)) = true).
    { apply Nat.ltb_lt. destruct (buffered E s (now w) 4);
        [congruence | cbn; lia]. }
    rewrite Hrun, Hlen.
    rewrite (@read_after_check command c s w (proj2 Hconn))
      by (apply Hio6; lia).
    cbn [fst snd rbind].
    split; [reflexivity |]. split; [reflexivity |]. split.
    + unfold at_read, at_check, log. cbn. now rewrite <- !app_assoc.
    + eexists. split; reflexivity.
Qed.

End Reading.

Section ReadingRuns.

(** ON is sent and the device answers A0 01 01 A2 during the settle wait
    (the third call): the verdict is ON. *)
Lemma transaction_reads_whole_buffer_witness :
  connected open_controller
    {| port := "COM3"; is_open := true; in_buffer := [] |} /\
  no_io_error (quiet_env [] 2 [xa0; x01; x01; xa2]) (now start) 4 /\
  fst (_execute_action (quiet_env [] 2 [xa0; x01; x01; xa2])
         "Turning relay ON" CMD_ON (open_controller, start)) = Ok ON.
Proof.
  assert (Hconn : connected open_controller
            {| port := "COM3"; is_open := true; in_buffer := [] |})
    by (split; reflexivity).
  assert (Hio : forall n,
            no_io_error (quiet_env [] 2 [xa0; x01; x01; xa2]) (now start) n)
    by (intros n i _; reflexivity).
  split; [exact Hconn |]. split; [apply Hio |].
  destruct (@transaction_reads_whole_buffer
              (quiet_env [] 2 [xa0; x01; x01; xa2])
              "Turning relay ON" CMD_ON open_controller _ start
              Hconn (Hio 4)) as [_ Hread].
  destruct Hread as (_ & Hverdict & _); [discriminate | apply Hio |].
  rewrite Hverdict. reflexivity.
Defined.

(** The three exchanges of the end-to-end scenario, from the command line
    on: discovery, probe, connection, one command. *)
Example on_with_full_reply :
  fst (run (quiet_env [relay_port] 8 [xa0; x01; x01; xa2])
         ActOn None false start) = Ok ON.
Proof. reflexivity. Qed.

Example toggle_with_two_bytes :
  fst (run (quiet_env [relay_port] 8 [xa0; x01])
         ActToggle None false start) = Ok UNKNOWN.
Proof. reflexivity. Qed.

Example status_without_reply :
  run (quiet_env [relay_port] 8 []) ActStatus None false start =
  (Ok UNKNOWN,
   (Some {| verbose := false; port_name := "COM3";
            serial_port :=
              Some {| port := "COM3"; is_open := false; in_buffer := [] |} |},
    {| trace := [EvComports;
                 EvOpen "COM3" BAUD_RATE 100; EvClose "COM3";
                 EvOpen "COM3" BAUD_RATE TIMEOUT;
                 EvResetInput; EvResetOutput;
                 EvWrite CMD_STATUS; EvFlush; EvSleep RESPONSE_DELAY;
                 EvInWaiting;
                 EvClose "COM3"];
       held := [] |})).
Proof. reflexivity. Qed.

End ReadingRuns.

(* ------------------------------------------------------------------ *)
(** * The connection scope *)

Section Scope.
Variable E : Env.

Lemma actions_keeps (a : Action) : respects keeps (actions E a).
Proof.
  intros st. rewrite actions_execute, execute_action_state.
  apply send_command_keeps.
Qed.

(** The two resets of [__enter__]. *)
Lemma resets_keeps :
  respects keeps
    (on_port (reset_input_buffer E) ;;;
     on_port (reset_output_buffer E) ;;; ret tt).
Proof.
  apply (respects_bind keeps_trans);
    [apply on_port_call_keeps, gentle_reset | intros _].
  apply (respects_bind keeps_trans);
    [apply on_port_call_keeps, gentle_unit | intros _].
  apply respects_ret, keeps_refl.
Qed.

(** Once [__enter__] has returned, the connection is there, open on the
    port of the controller, and held. *)
Lemma enter_connects (c : RelayController) (w : World) :
  fst (__enter__ E (c, w)) = Ok tt ->
  exists s,
    connected (fst (snd (__enter__ E (c, w)))) s /\
    port s = port_name c /\
    held (snd (snd (__enter__ E (c, w)))) = port_name c :: held w.
Proof.
  unfold __enter__, Serial_new.
  destruct (open_error E (now w) (port_name c)); [discriminate |].
  intros _.
  match goal with
  | |- context [bind ?m ?k ?st] =>
      destruct (resets_keeps st) as [Hheld Hconn]
  end.
  cbn [fst snd] in Hheld, Hconn.
  destruct (Hconn {| port := port_name c; is_open := true; in_buffer := [] |})
    as (s & Hs & Hport); [split; reflexivity |].
  exists s. split; [exact Hs |]. split; [exact Hport |].
  rewrite Hheld. reflexivity.
Qed.

(** [__exit__] on an open connection closes it and gives the port back. *)
Lemma exit_closes (c : RelayController) (s : Serial) (w : World) :
  connected c s ->
  __exit__ (c, w) =
  (Ok tt,
   (set_serial_port c
      (Some {| port := port s; is_open := false; in_buffer := [] |}),
    {| trace := trace w ++ [EvClose (port s)];
       held := release (port s) (held w) |})).
Proof.
  intros [Hs Ho]. unfold __exit__, on_port, close.
  rewrite Hs, Ho. reflexivity.
Qed.

(** [__exit__] on a controller without a connection, or with a closed
    one, does nothing and raises nothing. *)
Lemma exit_idle (c : RelayController) (w : World) :
  port_not_opened c = true -> __exit__ (c, w) = (Ok tt, (c, w)).
Proof.
  unfold port_not_opened, __exit__.
  destruct (serial_port c) as [s |]; [| reflexivity].
  now destruct (is_open s).
Qed.

(** X15: once the connection scope is entered, it is left with the
    connection closed and the port given back, whatever the transaction
    did: a verdict ON or OFF, the verdict UNKNOWN, or an exception, which
    is passed on after the close.  The exit handler on a controller whose
    connection was never opened, or is closed already, does nothing and
    raises nothing. *)
Theorem connection_closed_on_exit
  (a : Action) (c : RelayController) (w : World) :
  fst (__enter__ E (c, w)) = Ok tt ->
  closed (fst (snd (with_controller E (actions E a) (c, w)))) /\
  held (snd (snd (with_controller E (actions E a) (c, w)))) = held w /\
  fst (with_controller E (actions E a) (c, w)) =
    fst (actions E a (snd (__enter__ E (c, w)))) /\
  (exists evs,
     trace (snd (snd (with_controller E (actions E a) (c, w)))) =
     evs ++ [EvClose (port_name c)]) /\
  (forall c0 w0,
     port_not_opened c0 = true -> __exit__ (c0, w0) = (Ok tt, (c0, w0))).
Proof.
  intros Henter.
  destruct (enter_connects c w Henter) as (s1 & Hs1 & Hp1 & Hh1).
  split; [| split; [| split; [| split]]]; try apply exit_idle;
    unfold with_controller;
    destruct (__enter__ E (c, w)) as [[[] | e] st1]; try discriminate;
    cbn [fst snd] in *;
    pose proof (actions_keeps a st1) as [Hh2 Hc2];
    destruct (actions E a st1) as [r [c2 w2]];
    cbn [fst snd] in *;
    destruct (Hc2 s1 Hs1) as (s2 & Hs2 & Hp2);
    rewrite (exit_closes w2 Hs2); cbn [fst snd].
  - eexists. split; reflexivity.
  - cbn [held]. rewrite Hh2, Hh1, Hp2, Hp1. apply release_head.
  - reflexivity.
  - cbn [trace]. rewrite Hp2, Hp1. eexists. reflexivity.
Qed.

End Scope.

Section ScopeRuns.

Lemma connection_closed_on_exit_witness :
  fst (__enter__ (quiet_env [] 5 [xa0; x01; x01; xa2])
         (new_controller, start)) = Ok tt /\
  closed (fst (snd (with_controller (quiet_env [] 5 [xa0; x01; x01; xa2])
                      (actions (quiet_env [] 5 [xa0; x01; x01; xa2]) ActOn)
                      (new_controller, start)))) /\
  held (snd (snd (with_controller (quiet_env [] 5 [xa0; x01; x01; xa2])
                    (actions (quiet_env [] 5 [xa0; x01; x01; xa2]) ActOn)
                    (new_controller, start)))) = held start.
Proof.
  split; [reflexivity |].
  destruct (@connection_closed_on_exit
              (quiet_env [] 5 [xa0; x01; x01; xa2]) ActOn
              new_controller start eq_refl) as (Hclosed & Hheld & _).
  split; [exact Hclosed | exact Hheld].
Defined.

(** A transaction that fails in the transport (here the write), and one
    attempted with no connection at all: the exception leaves [main] as
    exit code 1, and no port stays open. *)
Example write_failure_closes :
  let E := {| comports := []; open_error := fun _ _ => None;
              io_error := fun t => if Nat.eqb t 3
                                   then Some {| reason := "Write timeout" |}
                                   else None;
              arrival := fun _ => [];
              str_upper := ascii_upper |} in
  run E ActOff (Some "COM3"%string) false start =
  (Raise (SerialError {| reason := "Write timeout" |}),
   (Some {| verbose := false; port_name := "COM3";
            serial_port :=
              Some {| port := "COM3"; is_open := false; in_buffer := [] |} |},
    {| trace := [EvOpen "COM3" BAUD_RATE TIMEOUT;
                 EvResetInput; EvResetOutput;
                 EvWrite CMD_OFF; EvClose "COM3"];
       held := [] |})) /\
  main E ActOff (Some "COM3"%string) false start =
  (1%Z, {| trace := [EvOpen "COM3" BAUD_RATE TIMEOUT;
                     EvResetInput; EvResetOutput;
                     EvWrite CMD_OFF; EvClose "COM3"];
           held := [] |}).
Proof. split; reflexivity. Qed.

Example lifecycle_violation :
  turn_on (quiet_env [] 0 []) (new_controller, start) =
  (Raise (RuntimeError "Serial port not opened" None),
   (new_controller, start)).
Proof. reflexivity. Qed.

End ScopeRuns.

(* ------------------------------------------------------------------ *)
(** * Further properties of the decoder *)

Section DecodeMore.

(** X1: the decoder on any response, absent or not.  It never raises: the
    length test keeps the three index accesses in range.  Its verdict is
    ON exactly on a buffer of at least four bytes that starts A0 01 and
    has 01 for third byte; OFF exactly on such a buffer with any other
    third byte; UNKNOWN exactly on an absent response and on a buffer that
    is too short or starts otherwise.  Bytes from the fourth on play no
    part. *)
Theorem parse_status_decides (response : option bytes) :
  exists verdict,
    _parse_status response = Ok verdict /\
    (verdict = ON <->
     exists r, response = Some r /\ valid_frame r /\
               state_byte r = Some STATE_ON) /\
    (verdict = OFF <->
     exists r, response = Some r /\ valid_frame r /\
               exists b, state_byte r = Some b /\ b <> STATE_ON) /\
    (verdict = UNKNOWN <->
     response = None \/ exists r, response = Some r /\ ~ valid_frame r) /\
    (forall r tail tail',
       response = Some (r ++ tail) -> 4 <= List.length r ->
       _parse_status (Some (r ++ tail')) = Ok verdict).
Proof.
  destruct (parse_status_total response) as [verdict Hrun].
  exists verdict. split; [exact Hrun |].
  destruct response as [r |].
  - split; [| split; [| split]].
    + split.
      * intros ->. exists r. split; [reflexivity |].
        now apply parse_status_ON_iff.
      * intros (r' & Hr & Hv & Hs). inversion Hr; subst r'.
        assert (H : _parse_status (Some r) = Ok ON)
          by now apply parse_status_ON_iff.
        congruence.
    + split.
      * intros ->. exists r. split; [reflexivity |].
        now apply parse_status_OFF_iff.
      * intros (r' & Hr & Hv & Hs). inversion Hr; subst r'.
        assert (H : _parse_status (Some r) = Ok OFF)
          by now apply parse_status_OFF_iff.
        congruence.
    + split.
      * intros ->. right. exists r. split; [reflexivity |].
        now apply parse_status_UNKNOWN_iff.
      * intros [Hr | (r' & Hr & Hv)]; [discriminate |].
        inversion Hr; subst r'.
        assert (H : _parse_status (Some r) = Ok UNKNOWN)
          by now apply parse_status_UNKNOWN_iff.
        congruence.
    + intros r0 tail tail' Hr Hlen. inversion Hr; subst r. clear Hr.
      destruct r0 as [| b0 [| b1 [| b2 [| b3 rest]]]];
        try (cbn in Hlen; lia).
      cbn [app] in *. rewrite parse_status_four in *. exact Hrun.
  - cbn in Hrun. inversion Hrun; subst verdict.
    split; [| split; [| split]].
    + split; [discriminate | intros (r & Hr & _); discriminate].
    + split; [discriminate | intros (r & Hr & _); discriminate].
    + split; [now left | reflexivity].
    + intros r tail tail' Hr. discriminate.
Qed.

End DecodeMore.

(* ------------------------------------------------------------------ *)
(** * Further properties of port resolution *)

Section DiscoveryMore.
Variable E : Env.
Local Open Scope Z_scope.

Lemma select_in (cs : list candidate) (sel : candidate) :
  select cs = Some sel ->
  In sel cs /\ forall c, In c cs -> tier sel <= tier c.
Proof.
  intros Hsel.
  assert (Hne : cs <> []) by (intros ->; discriminate).
  destruct (sort_by_hd tier Hne)
    as (pre & sel' & post & Hcs & Hhd & Hpre & Hpost).
  unfold select in Hsel. rewrite Hhd in Hsel. inversion Hsel; subst sel'.
  split.
  - rewrite Hcs. apply in_or_app. right. now left.
  - intros c Hc. rewrite Hcs in Hc. apply in_app_or in Hc.
    destruct Hc as [Hc | [<- | Hc]].
    + specialize (Hpre c Hc). lia.
    + lia.
    + now apply Hpost.
Qed.

(** What the tier of a candidate says of the port it comes from. *)
Lemma classify_tier (p : ListPortInfo) (c : candidate) :
  In c (classify (str_upper E) p) ->
  c = (device p, description p, tier c) /\
  (tier c = 1 /\ mentions (str_upper E) CH340_KEYWORDS p \/
   tier c = 2 /\ ~ mentions (str_upper E) CH340_KEYWORDS p /\
   mentions (str_upper E) USB_KEYWORDS p).
Proof.
  unfold classify, scan_port. rewrite not_mentions_iff, !mentions_iff.
  destruct (any_in CH340_KEYWORDS _) eqn:H1.
  - intros [<- | []]. cbn. auto.
  - destruct (any_in USB_KEYWORDS _) eqn:H2.
    + intros [<- | []]. cbn. auto.
    + intros [].
Qed.

Lemma in_scan_ports (ports : list ListPortInfo) (c : candidate) :
  In c (scan_ports (str_upper E) ports) <->
  exists p, In p ports /\ In c (classify (str_upper E) p).
Proof. rewrite scan_ports_flat_map. apply in_flat_map. Qed.

(** The outcome of discovery, case by case. *)
Lemma auto_detect_outcome (w : World) :
  match select (scan_ports (str_upper E) (comports E)) with
  | None =>
      _auto_detect_port E w =
      (Raise (RuntimeError NO_DEVICE_MSG None), log EvComports w)
  | Some sel =>
      match open_error E (S (now w)) (cand_device sel) with
      | Some e =>
          _auto_detect_port E w =
          (Raise (RuntimeError (DRIVER_CHECK_MSG (cand_device sel) e)
                    (Some e)),
           log (EvOpen (cand_device sel) BAUD_RATE 100) (log EvComports w))
      | None =>
          _auto_detect_port E w =
          (Ok (cand_device sel),
           {| trace := trace w ++ [EvComports;
                                   EvOpen (cand_device sel) BAUD_RATE 100;
                                   EvClose (cand_device sel)];
              held := held w |})
      end
  end.
Proof.
  destruct (select (scan_ports (str_upper E) (comports E))) as [sel |] eqn:Hsel.
  - rewrite (auto_detect_candidate E w Hsel).
    unfold bind, except_serial. rewrite probe_outcome, now_log.
    destruct (open_error E (S (now w)) (cand_device sel)); [reflexivity |].
    unfold ret, log. cbn. now rewrite <- app_assoc.
  - apply select_none in Hsel. now apply auto_detect_no_candidate.
Qed.

(** X2: discovery that finds a port.  With a candidate selected and the
    probe able to open it, [_auto_detect_port] returns the device of the
    selected candidate after three calls: the enumeration, the opening of
    that device at 9600 baud with a 0.1 s timeout, and its closing; no
    port is held afterwards. *)
Theorem discovery_returns_selected (w : World) (sel : candidate) :
  select (scan_ports (str_upper E) (comports E)) = Some sel ->
  open_error E (S (now w)) (cand_device sel) = None ->
  _auto_detect_port E w =
  (Ok (cand_device sel),
   {| trace := trace w ++ [EvComports;
                           EvOpen (cand_device sel) 9600 100;
                           EvClose (cand_device sel)];
      held := held w |}).
Proof.
  intros Hsel Hopen. pose proof (auto_detect_outcome w) as Hrun.
  now rewrite Hsel, Hopen in Hrun.
Qed.

(** X3: the port discovery returns is one of the enumerated ports, and
    one whose uppercased description has a keyword of either set; when
    some enumerated port has a chipset keyword, the returned port has
    one too, wherever the ports stand in the enumeration. *)
Theorem discovery_result_matches (w : World) (name : string) :
  fst (_auto_detect_port E w) = Ok name ->
  exists p,
    In p (comports E) /\ device p = name /\
    (mentions (str_upper E) CH340_KEYWORDS p \/
     mentions (str_upper E) USB_KEYWORDS p) /\
    ((exists q, In q (comports E) /\ mentions (str_upper E) CH340_KEYWORDS q) ->
     mentions (str_upper E) CH340_KEYWORDS p).
Proof.
  intros Hname. pose proof (auto_detect_outcome w) as Hrun.
  destruct (select (scan_ports (str_upper E) (comports E))) as [sel |] eqn:Hsel;
    [| rewrite Hrun in Hname; discriminate].
  destruct (open_error E (S (now w)) (cand_device sel));
    rewrite Hrun in Hname; [discriminate |].
  cbn in Hname. inversion Hname; subst name. clear Hname Hrun.
  destruct (select_in _ Hsel) as [Hin Hmin].
  apply in_scan_ports in Hin. destruct Hin as (p & Hp & Hc).
  destruct (classify_tier p sel Hc) as [Hshape Htier].
  exists p. split; [exact Hp |]. split; [now rewrite Hshape |].
  split; [tauto |].
  intros (q & Hq & Hchip).
  assert (Hqin : In (device q, description q, 1)
                   (scan_ports (str_upper E) (comports E))).
  { apply in_scan_ports. exists q. split; [exact Hq |].
    rewrite (classify_chipset Hchip). now left. }
  specialize (Hmin _ Hqin). cbn in Hmin.
  destruct Htier as [[_ H1] | [H2 _]]; [exact H1 | lia].
Qed.

(** X4: discovery touches the ports through the probe alone.  Whatever
    the environment and whatever the outcome, it writes nothing, tries to
    open at most one port, and holds no port when it ends. *)
Theorem discovery_is_read_only (w : World) :
  sent (trace (snd (_auto_detect_port E w))) = sent (trace w) /\
  (List.length (opens (trace (snd (_auto_detect_port E w)))) <=
   S (List.length (opens (trace w))))%nat /\
  held (snd (_auto_detect_port E w)) = held w.
Proof.
  pose proof (auto_detect_outcome w) as Hrun.
  destruct (select (scan_ports (str_upper E) (comports E))) as [sel |];
    [destruct (open_error E (S (now w)) (cand_device sel)) |];
    rewrite Hrun; unfold log; cbn [snd trace held];
    rewrite ?sent_app, ?opens_app, ?length_app; cbn;
    rewrite ?app_nil_r; repeat split; lia.
Qed.

End DiscoveryMore.

Section DiscoveryMoreRuns.

Lemma discovery_returns_selected_witness :
  select (scan_ports ascii_upper
            (comports (quiet_env [generic_port; bare_port; relay_port] 0 [])))
    = Some ("COM3"%string, Some "USB-SERIAL CH340 (COM3)"%string, 1%Z) /\
  _auto_detect_port (quiet_env [generic_port; bare_port; relay_port] 0 [])
    start =
  (Ok "COM3"%string,
   {| trace := [EvComports; EvOpen "COM3" 9600 100; EvClose "COM3"];
      held := [] |}).
Proof.
  split; [reflexivity |].
  exact (@discovery_returns_selected
           (quiet_env [generic_port; bare_port; relay_port] 0 []) start
           ("COM3"%string, Some "USB-SERIAL CH340 (COM3)"%string, 1%Z)
           eq_refl eq_refl).
Defined.

Lemma discovery_result_matches_witness :
  fst (_auto_detect_port (quiet_env [generic_port; modem_port] 0 []) start)
    = Ok "COM4"%string /\
  exists p,
    In p [generic_port; modem_port] /\ device p = "COM4"%string /\
    (mentions ascii_upper CH340_KEYWORDS p \/
     mentions ascii_upper USB_KEYWORDS p).
Proof.
  split; [reflexivity |].
  destruct (@discovery_result_matches
              (quiet_env [generic_port; modem_port] 0 []) start "COM4"
              eq_refl) as (p & Hp & Hdev & Hkw & _).
  exists p. auto.
Defined.

End DiscoveryMoreRuns.

(* ------------------------------------------------------------------ *)
(** * Further properties of the transaction *)

Section TransactionMore.
Variable E : Env.

(** X5: each of the four operations, on a controller whose connection is
    absent or closed, raises RuntimeError("Serial port not opened") before
    anything else: no call is made, nothing is written, and the
    controller is as it was. *)
Theorem operations_need_open_port
  (a : Action) (c : RelayController) (w : World) :
  port_not_opened c = true ->
  actions E a (c, w) =
  (Raise (RuntimeError "Serial port not opened" None), (c, w)).
Proof.
  intros Hclosed. rewrite actions_execute.
  unfold _execute_action. rewrite bind_eq, send_command_unfold, Hclosed.
  reflexivity.
Qed.

Lemma sound_ret {A} (a : A) : sound (@ret Self A a).
Proof. intros c w s Hs. split; [exact I | now exists s]. Qed.

Lemma sound_bind {A B} (m : M Self A) (k : A -> M Self B) :
  sound m -> (forall a, sound (k a)) -> sound (bind m k).
Proof.
  intros Hm Hk c w s Hs. unfold bind.
  destruct (Hm c w s Hs) as [Hout (s' & Hs')].
  destruct (m (c, w)) as [[a | e] [c1 w1]]; cbn [fst snd] in *.
  - now apply (Hk a c1 w1 s').
  - split; [exact Hout | now exists s'].
Qed.

Lemma sound_call {A} (ev : event) (act : Serial -> A * Serial) :
  gentle act -> sound (on_port (port_call E ev act)).
Proof.
  intros Hact c w s Hs.
  rewrite (on_port_call E ev act w Hs).
  destruct (deliver_port E w s) as [_ Hd].
  destruct Hs as [_ Ho].
  destruct (io_error E (now w)); cbn [fst snd]; (split; [exact I |]).
  - exists (deliver E w s). split; [reflexivity | congruence].
  - destruct (Hact (deliver E w s)) as [_ Ho'].
    eexists. split; [reflexivity | congruence].
Qed.

Lemma sound_sleep (ms : Z) : sound (sleep E ms).
Proof.
  intros c w s [Hs Ho]. unfold sleep; cbn. split; [exact I |].
  rewrite Hs; cbn. destruct (deliver_port E w s) as [_ Hd].
  exists (deliver E w s). split; [reflexivity | congruence].
Qed.

Lemma sound_send_command (command : bytes) :
  sound (_send_command E command).
Proof.
  intros c w s Hs. rewrite send_command_unfold, (connected_opened Hs).
  revert c w s Hs.
  change (sound (on_port (write E command) ;;; after_write E)).
  unfold after_write.
  repeat first
    [ apply sound_bind; [| intros ?]
    | apply sound_call; auto using gentle_write, gentle_unit,
        gentle_in_waiting, gentle_read
    | apply sound_sleep
    | apply sound_ret
    | match goal with |- sound (if ?b then _ else _) => destruct b end ].
Qed.

(** X6: on an open connection each of the four operations ends with a
    verdict or with an exception of the transport, and with no other
    exception: decoding never raises and the connection is never found
    missing.  No operation closes the connection: it is still open, on
    the same port, when the operation ends, also when it raises. *)
Theorem operations_raise_transport_errors_only
  (a : Action) (c : RelayController) (s : Serial) (w : World) :
  connected c s ->
  transport_outcome (fst (actions E a (c, w))) /\
  exists s',
    connected (fst (snd (actions E a (c, w)))) s' /\ port s' = port s.
Proof.
  intros Hs. split.
  - rewrite actions_execute, execute_action_result.
    match goal with
    | |- context [_send_command E ?cmd _] =>
        destruct (@sound_send_command cmd c w s Hs) as [Hout _];
        destruct (fst (_send_command E cmd (c, w))) as [response | e];
        [| exact Hout]
    end.
    cbn [rbind]. destruct (parse_status_total response) as [v ->].
    exact I.
  - destruct (actions_keeps E a (c, w)) as [_ Hkeep].
    apply (Hkeep s Hs).
Qed.

(** A call that fails, on a connection described by what arrived. *)
Lemma call_fail {A} (ev : event) (act : Serial -> A * Serial)
  (c : RelayController) (s : Serial) (t k : nat) (w : World)
  (e : SerialException) :
  is_open s = true -> now w = t + k -> io_error E (t + k) = Some e ->
  on_port (port_call E ev act) (set_serial_port c (Some (arrived E s t k)), w) =
  (Raise (SerialError e),
   (set_serial_port c (Some (arrived E s t (S k))), log ev w)).
Proof.
  intros Ho Hnow Hio.
  rewrite (@on_port_call E A ev act _ (arrived E s t k) w)
    by (split; [reflexivity | exact Ho]).
  rewrite Hnow, Hio, (deliver_arrived E s t k w Ho Hnow).
  reflexivity.
Qed.

Ltac at_moment :=
  first [ assumption
        | rewrite ?Nat.add_0_r; assumption
        | rewrite ?now_log; lia ].

(** X7: the first transport failure ends the transaction with that
    exception, and nothing is called after the failed call.  A failed
    write is followed by no flush, wait or read; a failed flush by no
    wait or read; a failed query of the buffer size by no read. *)
Theorem transport_failure_ends_transaction
  (action : string) (command : bytes) (c : RelayController) (s : Serial)
  (w : World) (e : SerialException) :
  connected c s ->
  (io_error E (now w) = Some e ->
   fst (_execute_action E action command (c, w)) = Raise (SerialError e) /\
   trace (snd (snd (_execute_action E action command (c, w)))) =
   trace w ++ [EvWrite command]) /\
  (io_error E (now w) = None -> io_error E (now w + 1) = Some e ->
   fst (_execute_action E action command (c, w)) = Raise (SerialError e) /\
   trace (snd (snd (_execute_action E action command (c, w)))) =
   trace w ++ [EvWrite command; EvFlush]) /\
  (io_error E (now w) = None -> io_error E (now w + 1) = None ->
   io_error E (now w + 3) = Some e ->
   fst (_execute_action E action command (c, w)) = Raise (SerialError e) /\
   trace (snd (snd (_execute_action E action command (c, w)))) =
   trace w ++ [EvWrite command; EvFlush; EvSleep RESPONSE_DELAY;
               EvInWaiting]).
Proof.
  intros Hconn. destruct (Hconn) as [Hs Ho].
  rewrite execute_action_state, execute_action_result.
  rewrite <- (connected_self Hconn) at 1 2 3 4 5 6.
  rewrite !send_command_unfold.
  unfold port_not_opened. cbn [serial_port set_serial_port]. rewrite Ho.
  cbn [negb].
  assert (Hstart : set_serial_port c (Some s) =
                   set_serial_port c (Some (arrived E s (now w) 0)))
    by now rewrite arrived_0.
  rewrite Hstart. clear Hstart.
  rewrite bind_eq. unfold write.
  split; [| split].
  - intros H0.
    rewrite (call_fail _ _ c s (now w) 0 w (e:=e)) by at_moment.
    cbn. split; [reflexivity | reflexivity].
  - intros H0 H1.
    rewrite (call_step E _ _ c s (now w) 0 w) by at_moment.
    cbv beta iota. cbn [fst snd].
    unfold after_write. rewrite bind_eq. unfold flush.
    rewrite (call_fail _ _ c s (now w) 1 _ (e:=e)) by at_moment.
    unfold log. cbn. split; [reflexivity | now rewrite <- !app_assoc].
  - intros H0 H1 H3.
    rewrite (call_step E _ _ c s (now w) 0 w) by at_moment.
    cbv beta iota. cbn [fst snd].
    unfold after_write. rewrite bind_eq. unfold flush.
    rewrite (call_step E _ _ c s (now w) 1) by at_moment.
    cbv beta iota. cbn [fst snd].
    rewrite bind_eq, (sleep_step E _ c s (now w) 2) by at_moment.
    cbv beta iota.
    rewrite bind_eq. unfold in_waiting.
    rewrite (call_fail _ _ c s (now w) 3 _ (e:=e)) by at_moment.
    unfold log. cbn. split; [reflexivity | now rewrite <- !app_assoc].
Qed.

End TransactionMore.

Section TransactionMoreRuns.

Lemma operations_need_open_port_witness :
  port_not_opened new_controller = true /\
  actions chatty_env ActToggle (new_controller, start) =
  (Raise (RuntimeError "Serial port not opened" None),
   (new_controller, start)).
Proof.
  split; [reflexivity |].
  exact (@operations_need_open_port chatty_env ActToggle new_controller
           start eq_refl).
Defined.

Lemma operations_raise_transport_errors_only_witness :
  connected open_controller
    {| port := "COM3"; is_open := true; in_buffer := [] |} /\
  transport_outcome
    (fst (actions (failing_env 1 WRITE_TIMEOUT []) ActOn
            (open_controller, start))).
Proof.
  assert (Hconn : connected open_controller
            {| port := "COM3"; is_open := true; in_buffer := [] |})
    by (split; reflexivity).
  split; [exact Hconn |].
  exact (proj1 (@operations_raise_transport_errors_only
                  (failing_env 1 WRITE_TIMEOUT []) ActOn
                  open_controller _ start Hconn)).
Defined.

Lemma transport_failure_ends_transaction_witness :
  connected open_controller
    {| port := "COM3"; is_open := true; in_buffer := [] |} /\
  io_error (failing_env 0 WRITE_TIMEOUT [xa0]) (now start) =
    Some WRITE_TIMEOUT /\
  trace (snd (snd (_execute_action (failing_env 0 WRITE_TIMEOUT [xa0])
                     "Turning relay OFF" CMD_OFF (open_controller, start))))
  = [EvWrite CMD_OFF].
Proof.
  assert (Hconn : connected open_controller
            {| port := "COM3"; is_open := true; in_buffer := [] |})
    by (split; reflexivity).
  split; [exact Hconn |]. split; [reflexivity |].
  destruct (@transport_failure_ends_transaction
              (failing_env 0 WRITE_TIMEOUT [xa0])
              "Turning relay OFF" CMD_OFF open_controller _ start
              WRITE_TIMEOUT Hconn) as [Hwrite _].
  exact (proj2 (Hwrite eq_refl)).
Defined.

End TransactionMoreRuns.

(* ------------------------------------------------------------------ *)
(** * Further properties of the connection scope *)

Section ScopeMore.
Variable E : Env.

Lemma enter_run (c : RelayController) (w : World) :
  open_error E (now w) (port_name c) = None ->
  io_error E (now w + 1) = None -> io_error E (now w + 2) = None ->
  __enter__ E (c, w) =
  (Ok tt,
   (set_serial_port c
      (Some {| port := port_name c; is_open := true;
               in_buffer := arrival E (now w + 2) |}),
    {| trace := trace w ++ [EvOpen (port_name c) BAUD_RATE TIMEOUT;
                            EvResetInput; EvResetOutput];
       held := port_name c :: held w |})).
Proof.
  intros Hopen H1 H2. unfold __enter__, Serial_new. rewrite Hopen.
  replace (now w + 1) with (S (now w)) in H1 by lia.
  replace (now w + 2) with (S (S (now w))) in * by lia.
  set (s0 := {| port := port_name c; is_open := true; in_buffer := [] |}).
  set (w1 := {| trace := trace (log (EvOpen (port_name c) BAUD_RATE TIMEOUT) w);
                held := port_name c ::
                        held (log (EvOpen (port_name c) BAUD_RATE TIMEOUT) w) |}).
  assert (Hnow1 : now w1 = S (now w)) by apply now_log.
  rewrite bind_eq. unfold reset_input_buffer.
  rewrite (@on_port_call E _ EvResetInput _ (set_serial_port c (Some s0)) s0 w1)
    by (split; reflexivity).
  rewrite Hnow1, H1. cbv beta iota. cbn [fst snd].
  rewrite bind_eq. unfold reset_output_buffer.
  rewrite (@on_port_call E _ EvResetOutput _ _
             (set_buffer (deliver E w1 s0) []) (log EvResetInput w1))
    by (split; reflexivity).
  rewrite now_log, Hnow1, H2. cbv beta iota. cbn [fst snd].
  unfold ret, deliver, set_buffer, set_serial_port, w1, s0.
  cbn [is_open port in_buffer verbose port_name serial_port app].
  rewrite now_log. unfold log. cbn [trace held].
  change (now {| trace := trace w ++ [EvOpen (port_name c) BAUD_RATE TIMEOUT];
                 held := port_name c :: held w |})
    with (now (log (EvOpen (port_name c) BAUD_RATE TIMEOUT) w)).
  rewrite now_log. now rewrite <- !app_assoc.
Qed.

(** X8: entering the scope with no failure.  The port of the controller
    is opened at 9600 baud with a 0.5 s timeout, then the input buffer is
    reset, then the output buffer: three calls in this order.  The port is
    held, and what the device sent up to the input reset is discarded: the
    input buffer holds the bytes that came in during the output reset and
    no others. *)
Theorem enter_opens_and_discards_stale (c : RelayController) (w : World) :
  open_error E (now w) (port_name c) = None ->
  io_error E (now w + 1) = None -> io_error E (now w + 2) = None ->
  __enter__ E (c, w) =
  (Ok tt,
   (set_serial_port c
      (Some {| port := port_name c; is_open := true;
               in_buffer := arrival E (now w + 2) |}),
    {| trace := trace w ++ [EvOpen (port_name c) 9600 500;
                            EvResetInput; EvResetOutput];
       held := port_name c :: held w |})).
Proof. exact (enter_run c w). Qed.

(** X9: when the port cannot be opened, the scope is not entered: the
    exception of the transport leaves the [with] statement at once, the
    body does not run, whatever it is, and no port is held; the only call
    made is the attempt to open. *)
Theorem open_failure_skips_scope {A} (body : M Self A)
  (c : RelayController) (w : World) (e : SerialException) :
  open_error E (now w) (port_name c) = Some e ->
  with_controller E body (c, w) =
  (Raise (SerialError e),
   (c, {| trace := trace w ++ [EvOpen (port_name c) BAUD_RATE TIMEOUT];
          held := held w |})).
Proof.
  intros Hopen. unfold with_controller, __enter__, Serial_new.
  now rewrite Hopen.
Qed.

(** X10: when the port opens and the reset of the input buffer then fails
    in the transport, [__enter__] raises with the connection open; the
    [with] statement runs neither the body nor [__exit__], so the port is
    still held when the exception leaves it, and nothing closes it. *)
Theorem reset_failure_leaves_port_open {A} (body : M Self A)
  (c : RelayController) (w : World) (e : SerialException) :
  open_error E (now w) (port_name c) = None ->
  io_error E (now w + 1) = Some e ->
  with_controller E body (c, w) =
  (Raise (SerialError e),
   (set_serial_port c
      (Some {| port := port_name c; is_open := true;
               in_buffer := arrival E (now w + 1) |}),
    {| trace := trace w ++ [EvOpen (port_name c) BAUD_RATE TIMEOUT;
                            EvResetInput];
       held := port_name c :: held w |})).
Proof.
  intros Hopen H1. unfold with_controller, __enter__, Serial_new.
  rewrite Hopen.
  replace (now w + 1) with (S (now w)) in * by lia.
  set (s0 := {| port := port_name c; is_open := true; in_buffer := [] |}).
  set (w1 := {| trace := trace (log (EvOpen (port_name c) BAUD_RATE TIMEOUT) w);
                held := port_name c ::
                        held (log (EvOpen (port_name c) BAUD_RATE TIMEOUT) w) |}).
  assert (Hnow1 : now w1 = S (now w)) by apply now_log.
  rewrite bind_eq. unfold reset_input_buffer.
  rewrite (@on_port_call E _ EvResetInput _ (set_serial_port c (Some s0)) s0 w1)
    by (split; reflexivity).
  rewrite Hnow1, H1. cbv beta iota.
  unfold deliver, set_serial_port, w1, s0, log.
  cbn [is_open port in_buffer verbose port_name serial_port app trace held].
  change (now {| trace := trace w ++ [EvOpen (port_name c) BAUD_RATE TIMEOUT];
                 held := port_name c :: held w |})
    with (now (log (EvOpen (port_name c) BAUD_RATE TIMEOUT) w)).
  rewrite now_log. now rewrite <- !app_assoc.
Qed.

Lemma exit_ok (st : Self) : fst (__exit__ st) = Ok tt.
Proof.
  destruct st as [c w]. unfold __exit__, on_port, close.
  destruct (serial_port c) as [s |] eqn:Hs; [| reflexivity].
  destruct (is_open s) eqn:Ho; reflexivity.
Qed.

(** X11: the scope closes the connection for every body that leaves the
    connection alone, not for a single operation only: once [__enter__]
    has returned, a body that keeps the connection open on its port, such
    as any sequence of the four operations, is followed by the close; the
    port is given back and the outcome of the body, value or exception,
    is the outcome of the [with] statement. *)
Theorem scope_closes_for_any_body {A} (body : M Self A)
  (c : RelayController) (w : World) :
  respects keeps body ->
  fst (__enter__ E (c, w)) = Ok tt ->
  closed (fst (snd (with_controller E body (c, w)))) /\
  held (snd (snd (with_controller E body (c, w)))) = held w /\
  fst (with_controller E body (c, w)) =
    fst (body (snd (__enter__ E (c, w)))).
Proof.
  intros Hbody Henter.
  destruct (enter_connects E c w Henter) as (s1 & Hs1 & Hp1 & Hh1).
  unfold with_controller.
  destruct (__enter__ E (c, w)) as [[[] | e] st1]; try discriminate.
  cbn [fst snd] in *.
  destruct (Hbody st1) as [Hh2 Hc2].
  destruct (body st1) as [r [c2 w2]]. cbn [fst snd] in *.
  destruct (Hc2 s1 Hs1) as (s2 & Hs2 & Hp2).
  rewrite (exit_closes w2 Hs2). cbn [fst snd held].
  split; [eexists; split; reflexivity |]. split; [| reflexivity].
  rewrite Hh2, Hh1, Hp2, Hp1. apply release_head.
Qed.

End ScopeMore.

Section ScopeMoreRuns.

Lemma enter_opens_and_discards_stale_witness :
  open_error chatty_env (now start) (port_name new_controller) = None /\
  __enter__ chatty_env (new_controller, start) =
  (Ok tt,
   ({| verbose := false; port_name := "COM3";
       serial_port :=
         Some {| port := "COM3"; is_open := true; in_buffer := [x01] |} |},
    {| trace := [EvOpen "COM3" 9600 500; EvResetInput; EvResetOutput];
       held := ["COM3"%string] |})).
Proof.
  split; [reflexivity |].
  exact (@enter_opens_and_discards_stale chatty_env new_controller start
           eq_refl eq_refl eq_refl).
Defined.

Lemma open_failure_skips_scope_witness :
  open_error (busy_env []) (now start) (port_name new_controller) =
    Some ACCESS_DENIED /\
  with_controller (busy_env []) (turn_on (busy_env []))
    (new_controller, start) =
  (Raise (SerialError ACCESS_DENIED),
   (new_controller,
    {| trace := [EvOpen "COM3" BAUD_RATE TIMEOUT]; held := [] |})).
Proof.
  split; [reflexivity |].
  exact (@open_failure_skips_scope (busy_env []) _
           (turn_on (busy_env [])) new_controller start ACCESS_DENIED
           eq_refl).
Defined.

Lemma reset_failure_leaves_port_open_witness :
  io_error (failing_env 1 WRITE_TIMEOUT []) (now start + 1) =
    Some WRITE_TIMEOUT /\
  held (snd (snd (with_controller (failing_env 1 WRITE_TIMEOUT [])
                    (turn_on (failing_env 1 WRITE_TIMEOUT []))
                    (new_controller, start)))) = ["COM3"%string].
Proof.
  split; [reflexivity |].
  rewrite (@reset_failure_leaves_port_open
             (failing_env 1 WRITE_TIMEOUT []) _
             (turn_on (failing_env 1 WRITE_TIMEOUT []))
             new_controller start WRITE_TIMEOUT eq_refl eq_refl).
  reflexivity.
Defined.

Lemma scope_closes_for_any_body_witness :
  respects keeps (turn_on chatty_env ;;; query_status chatty_env) /\
  fst (__enter__ chatty_env (new_controller, start)) = Ok tt /\
  held (snd (snd (with_controller chatty_env
                    (turn_on chatty_env ;;; query_status chatty_env)
                    (new_controller, start)))) = held start.
Proof.
  assert (Hbody : respects keeps
                    (turn_on chatty_env ;;; query_status chatty_env)).
  { apply (respects_bind keeps_trans).
    - exact (actions_keeps chatty_env ActOn).
    - intros _. exact (actions_keeps chatty_env ActStatus). }
  split; [exact Hbody |]. split; [reflexivity |].
  destruct (@scope_closes_for_any_body chatty_env _
              (turn_on chatty_env ;;; query_status chatty_env)
              new_controller start Hbody eq_refl) as (_ & Hheld & _).
  exact Hheld.
Defined.

End ScopeMoreRuns.

(* ------------------------------------------------------------------ *)
(** * Successive transactions and the whole invocation *)

Section InvocationMore.
Variable E : Env.

(** A transaction without transport failure, in full. *)
Lemma send_command_outcome (command : bytes) (c : RelayController)
  (s : Serial) (w : World) :
  is_open s = true -> no_io_error E (now w) 6 ->
  _send_command E command (set_serial_port c (Some s), w) =
  if 0 <? List.length (buffered E s (now w) 4) then
    (Ok (Some (buffered E s (now w) 5)), at_read E command c s w)
  else (Ok None, at_check E command c s w).
Proof.
  intros Ho Hio.
  rewrite (@send_command_check E command c s w Ho)
    by (intros i Hi; apply Hio; lia).
  destruct (0 <? List.length (buffered E s (now w) 4)); [| reflexivity].
  apply read_after_check; [exact Ho | |]; apply Hio; lia.
Qed.

Lemma now_at_read (command : bytes) (c : RelayController) (s : Serial)
  (w : World) :
  now (snd (at_read E command c s w)) = now w + 6.
Proof. unfold at_read, at_check. cbn [snd]. rewrite !now_log. lia. Qed.

(** X12: transactions on one connection share its input buffer, and no
    transaction empties it before writing.  Bytes of the device that come
    in while the first transaction is reading are left in the buffer, and
    the response of the next transaction starts with them: it is those
    bytes followed by what arrives during the five calls of the second
    transaction up to its read. *)
Theorem late_bytes_join_next_response
  (first second : bytes) (c : RelayController) (s : Serial) (w : World) :
  connected c s -> no_io_error E (now w) 12 ->
  buffered E s (now w) 4 <> [] ->
  arrival E (now w + 5) <> [] ->
  fst (_send_command E second (snd (_send_command E first (c, w)))) =
  Ok (Some (arrival E (now w + 5) ++
            List.concat (map (arrival E) (seq (now w + 6) 5)))).
Proof.
  intros Hconn Hio Hsome Hlate.
  rewrite <- (connected_self Hconn).
  rewrite (@send_command_outcome first c s w (proj2 Hconn))
    by (intros i Hi; apply Hio; lia).
  assert (Hlen : (0 <? List.length (buffered E s (now w) 4)) = true).
  { apply Nat.ltb_lt. destruct (buffered E s (now w) 4);
      [congruence | cbn; lia]. }
  rewrite Hlen. cbn [snd].
  pose proof (now_at_read first c s w) as Hnow.
  unfold at_read in *. cbn [snd] in Hnow.
  set (s1 := set_buffer s (arrival E (now w + 5))) in *.
  rewrite (@send_command_outcome second c s1 _ (proj2 Hconn))
    by (intros i Hi; apply Hio; lia).
  rewrite Hnow.
  assert (Hlen1 : (0 <? List.length (buffered E s1 (now w + 6) 4)) = true).
  { apply Nat.ltb_lt. unfold buffered, s1. cbn [in_buffer set_buffer].
    rewrite length_app. destruct (arrival E (now w + 5));
      [congruence | cbn; lia]. }
  rewrite Hlen1. reflexivity.
Qed.

Lemma resets_silent :
  respects silent
    (on_port (reset_input_buffer E) ;;;
     on_port (reset_output_buffer E) ;;; ret tt).
Proof.
  apply (respects_bind silent_trans);
    [apply on_port_call_silent; reflexivity | intros _].
  apply (respects_bind silent_trans);
    [apply on_port_call_silent; reflexivity | intros _].
  apply respects_ret, silent_refl.
Qed.

Lemma enter_sent (c : RelayController) (w : World) :
  sent (trace (snd (snd (__enter__ E (c, w))))) = sent (trace w).
Proof.
  unfold __enter__, Serial_new.
  destruct (open_error E (now w) (port_name c)).
  - unfold log; cbn. rewrite sent_app. cbn. apply app_nil_r.
  - match goal with
    | |- context [bind ?m ?k ?st] =>
        destruct (resets_silent st) as (evs & Ht & Hs & _)
    end.
    rewrite Ht. cbn [snd trace]. unfold log; cbn [trace].
    rewrite !sent_app, Hs. cbn. now rewrite !app_nil_r.
Qed.

Lemma exit_sent (st : Self) :
  sent (trace (snd (snd (__exit__ st)))) = sent (trace (snd st)).
Proof.
  destruct st as [c w]. unfold __exit__, on_port, close.
  destruct (serial_port c) as [s |]; [| reflexivity].
  destruct (is_open s); [| reflexivity].
  cbn. rewrite sent_app. cbn. apply app_nil_r.
Qed.

Lemma init_sent (port : option string) (verbose : bool) (w : World) :
  sent (trace (snd (__init__ E port verbose w))) = sent (trace w).
Proof.
  assert (Hauto : sent (trace (snd (_auto_detect_port E w))) =
                  sent (trace w)).
  { pose proof (auto_detect_outcome E w) as Hrun.
    destruct (select (scan_ports (str_upper E) (comports E))) as [sel |];
      [destruct (open_error E (S (now w)) (cand_device sel)) |];
      rewrite Hrun; unfold log; cbn [snd trace];
      rewrite ?sent_app; cbn; now rewrite ?app_nil_r. }
  destruct port as [[| ch p] |]; [| reflexivity |];
    rewrite init_discovers by auto;
    now destruct (_auto_detect_port E w) as [[name | e] w'].
Qed.

Lemma actions_sent (a : Action) (c : RelayController) (w : World) :
  sent (trace (snd (snd (actions E a (c, w))))) =
  sent (trace w) ++
  (if port_not_opened c then []
   else [match a with
         | ActOn => CMD_ON
         | ActOff => CMD_OFF
         | ActToggle => CMD_TOGGLE
         | ActStatus => CMD_STATUS
         end]).
Proof.
  rewrite actions_execute, execute_action_state.
  match goal with
  | |- context [_send_command E ?cmd _] =>
      destruct (send_command_trace E cmd c w) as (evs & -> & Hsent & _)
  end.
  rewrite sent_app. f_equal.
  destruct (port_not_opened c); [reflexivity |].
  cbn [sent flat_map]. fold (sent evs). now rewrite Hsent.
Qed.

(** X13: one invocation, from the construction of the controller to the
    end of the [with] statement, writes at most one byte sequence, and
    that is the frame of the requested action: discovery, the probe, the
    opening, the buffer resets and the close write nothing.  When the
    invocation ends with a verdict, the frame was written. *)
Theorem invocation_writes_one_frame
  (a : Action) (port : option string) (verbose : bool) (w : World) :
  (sent (trace (snd (snd (run E a port verbose w)))) = sent (trace w) \/
   sent (trace (snd (snd (run E a port verbose w)))) =
   sent (trace w) ++
   [match a with
    | ActOff => [xa0; x01; x00; xa1]
    | ActOn => [xa0; x01; x03; xa4]
    | ActToggle => [xa0; x01; x04; xa5]
    | ActStatus => [xa0; x01; x05; xa6]
    end]) /\
  (forall verdict,
     fst (run E a port verbose w) = Ok verdict ->
     sent (trace (snd (snd (run E a port verbose w)))) =
     sent (trace w) ++
     [match a with
      | ActOff => [xa0; x01; x00; xa1]
      | ActOn => [xa0; x01; x03; xa4]
      | ActToggle => [xa0; x01; x04; xa5]
      | ActStatus => [xa0; x01; x05; xa6]
      end]).
Proof.
  unfold run. pose proof (init_sent port verbose w) as Hinit.
  destruct (__init__ E port verbose w) as [[c0 | e] w1]; cbn [snd] in Hinit;
    [| split; [now left | discriminate]].
  unfold with_controller.
  pose proof (enter_sent c0 w1) as Henter.
  pose proof (enter_connects E c0 w1) as Hconn.
  destruct (__enter__ E (c0, w1)) as [[[] | e] [c1 w2]];
    cbn [fst snd] in *;
    [| split; [left; congruence | discriminate]].
  destruct (Hconn eq_refl) as (s1 & Hs1 & _).
  pose proof (actions_sent a c1 w2) as Hbody.
  rewrite (connected_opened Hs1) in Hbody.
  destruct (actions E a (c1, w2)) as [r [c2 w3]]. cbn [fst snd] in *.
  pose proof (exit_sent (c2, w3)) as Hexit.
  pose proof (exit_ok (c2, w3)) as Hok.
  destruct (__exit__ (c2, w3)) as [[[] | e] [c3 w4]];
    cbn [fst snd] in *; try discriminate.
  assert (Hall : sent (trace w4) =
                 sent (trace w) ++
                 [match a with
                  | ActOff => [xa0; x01; x00; xa1]
                  | ActOn => [xa0; x01; x03; xa4]
                  | ActToggle => [xa0; x01; x04; xa5]
                  | ActStatus => [xa0; x01; x05; xa6]
                  end]).
  { rewrite Hexit, Hbody, Henter, Hinit. now destruct a. }
  split; [now right | intros _ _; exact Hall].
Qed.

(** X14: the exit code does not depend on what the device answers.  With
    a port given on the command line, when that port opens and no call on
    the connection fails, [main] returns 0 whatever bytes arrive, and
    also when none arrive: a verdict UNKNOWN is no failure. *)
Theorem exit_code_ignores_reply
  (a : Action) (port : string) (verbose : bool) (w : World) :
  port <> EmptyString ->
  open_error E (now w) port = None ->
  no_io_error E (now w + 1) 8 ->
  fst (main E a (Some port) verbose w) = 0%Z.
Proof.
  intros Hport Hopen Hio.
  unfold main, run, __init__, bind.
  destruct port as [| ch port]; [congruence |].
  cbn [truthy_str ret].
  set (p := String ch port) in *.
  set (c0 := {| verbose := verbose; port_name := p; serial_port := None |}).
  unfold with_controller.
  rewrite (enter_run E c0 w) by (try exact Hopen; apply Hio; lia).
  match goal with
  | |- context [actions E a (set_serial_port c0 (Some ?s), ?ww)] =>
      set (s1 := s); set (w1 := ww)
  end.
  assert (Hnow : now w1 = now w + 3).
  { unfold w1, now. cbn [trace]. rewrite length_app. cbn. lia. }
  rewrite (surjective_pairing (actions E a (set_serial_port c0 (Some s1), w1))).
  rewrite actions_execute, execute_action_result, execute_action_state.
  rewrite (@send_command_outcome _ c0 s1 w1 eq_refl)
    by (intros i Hi; apply Hio; lia).
  pose proof (exit_ok) as Hexit.
  destruct (0 <? List.length (buffered E s1 (now w1) 4)); cbn [fst snd rbind].
  - destruct (parse_status_total (Some (buffered E s1 (now w1) 5)))
      as [v ->].
    specialize (Hexit (at_read E
      match a with
      | ActOn => CMD_ON | ActOff => CMD_OFF
      | ActToggle => CMD_TOGGLE | ActStatus => CMD_STATUS
      end c0 s1 w1)).
    destruct (__exit__ _) as [[[] | e] [c3 w4]]; [reflexivity | discriminate].
  - specialize (Hexit (at_check E
      match a with
      | ActOn => CMD_ON | ActOff => CMD_OFF
      | ActToggle => CMD_TOGGLE | ActStatus => CMD_STATUS
      end c0 s1 w1)).
    destruct (__exit__ _) as [[[] | e] [c3 w4]]; [reflexivity | discriminate].
Qed.

End InvocationMore.

Section InvocationMoreRuns.

Lemma late_bytes_join_next_response_witness :
  connected open_controller
    {| port := "COM3"; is_open := true; in_buffer := [] |} /\
  no_io_error chatty_env (now start) 12 /\
  fst (_send_command chatty_env CMD_STATUS
         (snd (_send_command chatty_env CMD_ON (open_controller, start)))) =
  Ok (Some [x01; x01; xa2; xa0; x01; x01]).
Proof.
  assert (Hconn : connected open_controller
            {| port := "COM3"; is_open := true; in_buffer := [] |})
    by (split; reflexivity).
  assert (Hio : no_io_error chatty_env (now start) 12)
    by (intros i _; reflexivity).
  split; [exact Hconn |]. split; [exact Hio |].
  rewrite (@late_bytes_join_next_response chatty_env CMD_ON CMD_STATUS
             open_controller _ start Hconn Hio);
    [reflexivity | discriminate | discriminate].
Defined.

Lemma exit_code_ignores_reply_witness :
  "COM5"%string <> EmptyString /\
  no_io_error (quiet_env [] 5 [xa0; x01]) (now start + 1) 8 /\
  fst (main (quiet_env [] 5 [xa0; x01]) ActStatus (Some "COM5"%string)
         false start) = 0%Z.
Proof.
  assert (Hio : no_io_error (quiet_env [] 5 [xa0; x01]) (now start + 1) 8)
    by (intros i _; reflexivity).
  split; [discriminate |]. split; [exact Hio |].
  apply (@exit_code_ignores_reply (quiet_env [] 5 [xa0; x01]) ActStatus
           "COM5" false start); [discriminate | reflexivity | exact Hio].
Defined.

End InvocationMoreRuns.

(* ------------------------------------------------------------------ *)
(** * Descriptions beyond ASCII *)

Section CaseMapping.

(** The classification follows the case mapping it is given: with a
    mapping that takes the long s to S, as [str.upper] does, a description
    written with it is a tier-2 candidate. *)
Example long_s_description :
  classify long_s_upper
    {| device := "COM9"; description := Some "uſb relay"%string |} =
  [("COM9"%string, Some "uſb relay"%string, 2%Z)].
Proof. reflexivity. Qed.

Lemma classification_by_keywords_witness :
  (forall s, is_ascii s = true -> ascii_upper s = ascii_upper s) /\
  classify ascii_upper bare_port = [] /\
  map tier (classify ascii_upper
              (described generic_port (ascii_lower "Generic usb Serial"))) =
  [2%Z].
Proof.
  assert (Hascii : forall s, is_ascii s = true -> ascii_upper s = ascii_upper s)
    by reflexivity.
  split; [exact Hascii |].
  destruct (classification_by_keywords ascii_upper [] bare_port)
    as (_ & _ & _ & _ & _ & Hcase).
  destruct (Hcase Hascii) as [Hempty _].
  split; [apply Hempty; now left |].
  destruct (classification_by_keywords ascii_upper [] generic_port)
    as (_ & _ & _ & _ & _ & Hcase').
  destruct (Hcase' Hascii) as [_ Hletters].
  destruct (Hletters "Generic usb Serial"%string eq_refl) as [Hlower _].
  rewrite Hlower. reflexivity.
Defined.

End CaseMapping.

(* ------------------------------------------------------------------ *)
(** * A failure while the scope is entered *)

Section EnterFailure.
Variable E : Env.

(** [__enter__] when the port opens and the reset of the input buffer
    fails: the exception leaves it with the connection open. *)
Lemma enter_reset_failure (c : RelayController) (w : World)
  (e : SerialException) :
  open_error E (now w) (port_name c) = None ->
  io_error E (now w + 1) = Some e ->
  __enter__ E (c, w) =
  (Raise (SerialError e),
   (set_serial_port c
      (Some {| port := port_name c; is_open := true;
               in_buffer := arrival E (now w + 1) |}),
    {| trace := trace w ++ [EvOpen (port_name c) BAUD_RATE TIMEOUT;
                            EvResetInput];
       held := port_name c :: held w |})).
Proof.
  intros Hopen H1. unfold __enter__, Serial_new. rewrite Hopen.
  replace (now w + 1) with (S (now w)) in * by lia.
  set (s0 := {| port := port_name c; is_open := true; in_buffer := [] |}).
  set (w0 := log (EvOpen (port_name c) BAUD_RATE TIMEOUT) w).
  set (w1 := {| trace := trace w0; held := port_name c :: held w0 |}).
  assert (Hnow1 : now w1 = S (now w)) by apply now_log.
  rewrite bind_eq. unfold reset_input_buffer.
  rewrite (@on_port_call E _ EvResetInput _ (set_serial_port c (Some s0)) s0 w1)
    by (split; reflexivity).
  rewrite Hnow1, H1. cbv beta iota.
  unfold deliver. cbn [is_open s0]. rewrite Hnow1.
  unfold set_serial_port, w1, w0, s0, log.
  cbn [port in_buffer verbose port_name serial_port app trace held].
  now rewrite <- !app_assoc.
Qed.

(** C9: an invocation that leaves a port open.  With a port given on the
    command line, when the port opens and the reset of the input buffer
    that follows in [__enter__] raises in the transport, the [with]
    statement does not run [__exit__]: the exception goes to the handlers
    of [main], which returns 1, and the invocation ends with the
    connection open and the port held; the calls made are the opening and
    the reset, and no close. *)
Theorem enter_failure_leaves_port_held
  (a : Action) (port : string) (verbose : bool) (w : World)
  (e : SerialException) :
  port <> EmptyString ->
  open_error E (now w) port = None ->
  io_error E (now w + 1) = Some e ->
  run E a (Some port) verbose w =
  (Raise (SerialError e),
   (Some {| verbose := verbose; port_name := port;
            serial_port :=
              Some {| port := port; is_open := true;
                      in_buffer := arrival E (now w + 1) |} |},
    {| trace := trace w ++ [EvOpen port BAUD_RATE TIMEOUT; EvResetInput];
       held := port :: held w |})) /\
  main E a (Some port) verbose w =
  (1%Z,
   {| trace := trace w ++ [EvOpen port BAUD_RATE TIMEOUT; EvResetInput];
      held := port :: held w |}).
Proof.
  intros Hport Hopen Hreset.
  assert (Hrun :
    run E a (Some port) verbose w =
    (Raise (SerialError e),
     (Some {| verbose := verbose; port_name := port;
              serial_port :=
                Some {| port := port; is_open := true;
                        in_buffer := arrival E (now w + 1) |} |},
      {| trace := trace w ++ [EvOpen port BAUD_RATE TIMEOUT; EvResetInput];
         held := port :: held w |}))).
  { unfold run, __init__, bind.
    destruct port as [| ch port]; [congruence |].
    cbn [truthy_str ret]. unfold with_controller.
    now rewrite (@enter_reset_failure
                   {| verbose := verbose; port_name := String ch port;
                      serial_port := None |} w e Hopen Hreset). }
  split; [exact Hrun |].
  unfold main. now rewrite Hrun.
Qed.

End EnterFailure.

Section EnterFailureRuns.

Lemma enter_failure_leaves_port_held_witness :
  "COM3"%string <> EmptyString /\
  open_error (failing_env 1 DEVICE_GONE []) (now start) "COM3" = None /\
  io_error (failing_env 1 DEVICE_GONE []) (now start + 1) =
    Some DEVICE_GONE /\
  main (failing_env 1 DEVICE_GONE []) ActOn (Some "COM3"%string) false start =
  (1%Z,
   {| trace := [EvOpen "COM3" BAUD_RATE TIMEOUT; EvResetInput];
      held := ["COM3"%string] |}).
Proof.
  split; [discriminate |]. split; [reflexivity |]. split; [reflexivity |].
  exact (proj2 (@enter_failure_leaves_port_held
                  (failing_env 1 DEVICE_GONE []) ActOn "COM3" false start
                  DEVICE_GONE ltac:(discriminate) eq_refl eq_refl)).
Defined.

End EnterFailureRuns.
